(** * UDOO wiring layer (src/wiring/udoo.c): pin I/O, analog read, shift I/O, time

    A shallow embedding of the C functions of udoo.c.  The functions talk to
    the GPIO driver, the ADC driver, the diagnostic sink, [usleep] and
    [clock_gettime]; none of these is part of udoo.c, so they are embedded as
    a recording fake: every call is appended to a log, and every call that
    returns a value answers from a script held in the hardware state. *)

From Stdlib Require Import ZArith Lia String.
From stdpp Require Import gmap list.

Local Open Scope Z_scope.

(** ** Fixed-width integers *)

(** Conversion to [uint8_t], [uint32_t] / [unsigned int]. *)
Definition u8 (z : Z) : Z := z mod 2 ^ 8.
Definition u32 (z : Z) : Z := z mod 2 ^ 32.

(** [v >> n] and [v << n] on [uint32_t].  C leaves the shift undefined when
    the count is not below the width of the promoted left operand. *)
Definition shr32 (v n : Z) : option Z :=
  if (0 <=? n) && (n <? 32) then Some (Z.shiftr v n) else None.

Definition shl32 (v n : Z) : option Z :=
  if (0 <=? n) && (n <? 32) then Some (u32 (Z.shiftl v n)) else None.

(** ** Board constants

    Macros, enumerators and the pin table that udoo.c takes from wiring.h,
    udooConfig.h and chip.h.  Their values are not fixed by udoo.c. *)

Record AnalogPinDescription := {
  ADCChannelNumber : Z;
  analogChannel : Z
}.

Class Board := {
  INPUT : Z;
  OUTPUT : Z;
  HIGH : Z;
  LOW : Z;
  LSBFIRST : Z;
  MSBFIRST : Z;
  A0 : Z;
  CANTX : Z;
  NOT_ANALOG_PIN_ERROR : Z;
  CLOCK_TIME_ERROR : Z;
  ADC_RESOLUTION : Z;
  ADC_ISR_DRDY : Z;
  AR_DEFAULT : Z;
  ADC0 : Z; ADC1 : Z; ADC2 : Z; ADC3 : Z; ADC4 : Z; ADC5 : Z;
  ADC7 : Z; ADC8 : Z; ADC9 : Z; ADC10 : Z; ADC11 : Z;
  analogPin : Z -> AnalogPinDescription;
  (** width in bits of [long] and [unsigned long] on the target *)
  LONG_BIT : Z
}.

(** ** Calls to the collaborators, and the hardware state *)

Inductive call :=
| GpioExport (pin : Z)
| GpioSetDirInput (pin : Z)
| GpioSetDirOutput (pin : Z)
| GpioSetValue (pin value : Z)
| GpioGetValue (pin : Z)
| AdcEnableChannel (channel : Z)
| AdcStart
| AdcGetStatus
| AdcGetLatestValue
| AdcDisableChannel (channel : Z)
| ClockGettime
| Usleep (usec : Z)
| DebugMsg (format : string) (args : list Z).

Inductive direction := DirInput | DirOutput.

Record timespec := { tv_sec : Z; tv_nsec : Z }.

(** Modelled from the spec: the GPIO, ADC, clock and diagnostic capabilities of
    section 6 (gpioExport, gpioSetDir*, gpioSetValue, gpioGetValue,
    adc_enable_channel, adc_start, adc_get_status, adc_get_latest_value,
    adc_disable_channel, clock_gettime, usleep, debug), which udoo.c calls
    and does not define.  The state also holds the global [analog_reference]
    of udoo.c. *)
Record hw := {
  calls : list call;                 (* every call made so far, oldest first *)
  analog_reference : Z;              (* the global of udoo.c *)
  gpio_exported : gset Z;            (* pins acquired by gpioExport *)
  gpio_dir : gmap Z direction;       (* direction last configured per pin *)
  gpio_in : nat -> Z;                (* answer of the n-th gpioGetValue *)
  gpio_reads : nat;                  (* gpioGetValue calls so far *)
  adc_enabled : gset Z;              (* channels currently enabled *)
  adc_isr : nat -> Z;                (* status register at the n-th poll *)
  adc_polls : nat;                   (* adc_get_status calls so far *)
  adc_lcdr : Z;                      (* last converted data register *)
  clock_ret : Z;                     (* return code of clock_gettime *)
  clock_tm : timespec                (* time stored by clock_gettime *)
}.

(** ** Outcomes and the monad of the embedded functions *)

Inductive outcome (A : Type) :=
| Done (a : A) (h : hw)      (* the function returned [a], leaving state [h] *)
| Undefined                  (* an operation that C leaves undefined was reached *)
| Spinning.                  (* the loop budget ran out: still in a loop *)
Arguments Done {A} a h.
Arguments Undefined {A}.
Arguments Spinning {A}.

Definition M (A : Type) : Type := hw -> outcome A.

Definition ret {A} (a : A) : M A := fun h => Done a h.

Definition bind {A B} (m : M A) (k : A -> M B) : M B :=
  fun h => match m h with
           | Done a h' => k a h'
           | Undefined => Undefined
           | Spinning => Spinning
           end.

Notation "x <- m ;; k" := (bind m (fun x => k))
  (at level 100, m at next level, right associativity).
Notation "m ;; k" := (bind m (fun _ => k))
  (at level 100, right associativity).

(** A C expression whose evaluation may be undefined. *)
Definition defined {A} (o : option A) : M A :=
  fun h => match o with Some a => Done a h | None => Undefined end.

(** [for (i = start; ...; i++) body], run [n] times, threading the locals [s]. *)
Fixpoint for_loop {S : Type} (n : nat) (i : Z) (body : Z -> S -> M S) (s : S) : M S :=
  match n with
  | O => ret s
  | Datatypes.S n' => s' <- body i s ;; for_loop n' (i + 1) body s'
  end.

(** Result value and final state of an outcome, when it returned. *)
Definition result {A} (o : outcome A) : option A :=
  match o with Done a _ => Some a | _ => None end.

Definition final {A} (o : outcome A) : option hw :=
  match o with Done _ h => Some h | _ => None end.

(** ** The fake collaborators *)

Definition log_call (c : call) (h : hw) : hw :=
  {| calls := calls h ++ [c];
     analog_reference := analog_reference h;
     gpio_exported := gpio_exported h;
     gpio_dir := gpio_dir h;
     gpio_in := gpio_in h;
     gpio_reads := gpio_reads h;
     adc_enabled := adc_enabled h;
     adc_isr := adc_isr h;
     adc_polls := adc_polls h;
     adc_lcdr := adc_lcdr h;
     clock_ret := clock_ret h;
     clock_tm := clock_tm h |}.

Definition set_analog_reference (r : Z) (h : hw) : hw :=
  {| calls := calls h;
     analog_reference := r;
     gpio_exported := gpio_exported h;
     gpio_dir := gpio_dir h;
     gpio_in := gpio_in h;
     gpio_reads := gpio_reads h;
     adc_enabled := adc_enabled h;
     adc_isr := adc_isr h;
     adc_polls := adc_polls h;
     adc_lcdr := adc_lcdr h;
     clock_ret := clock_ret h;
     clock_tm := clock_tm h |}.

Definition set_gpio_exported (s : gset Z) (h : hw) : hw :=
  {| calls := calls h;
     analog_reference := analog_reference h;
     gpio_exported := s;
     gpio_dir := gpio_dir h;
     gpio_in := gpio_in h;
     gpio_reads := gpio_reads h;
     adc_enabled := adc_enabled h;
     adc_isr := adc_isr h;
     adc_polls := adc_polls h;
     adc_lcdr := adc_lcdr h;
     clock_ret := clock_ret h;
     clock_tm := clock_tm h |}.

Definition set_gpio_dir (d : gmap Z direction) (h : hw) : hw :=
  {| calls := calls h;
     analog_reference := analog_reference h;
     gpio_exported := gpio_exported h;
     gpio_dir := d;
     gpio_in := gpio_in h;
     gpio_reads := gpio_reads h;
     adc_enabled := adc_enabled h;
     adc_isr := adc_isr h;
     adc_polls := adc_polls h;
     adc_lcdr := adc_lcdr h;
     clock_ret := clock_ret h;
     clock_tm := clock_tm h |}.

Definition set_gpio_reads (n : nat) (h : hw) : hw :=
  {| calls := calls h;
     analog_reference := analog_reference h;
     gpio_exported := gpio_exported h;
     gpio_dir := gpio_dir h;
     gpio_in := gpio_in h;
     gpio_reads := n;
     adc_enabled := adc_enabled h;
     adc_isr := adc_isr h;
     adc_polls := adc_polls h;
     adc_lcdr := adc_lcdr h;
     clock_ret := clock_ret h;
     clock_tm := clock_tm h |}.

Definition set_adc_enabled (s : gset Z) (h : hw) : hw :=
  {| calls := calls h;
     analog_reference := analog_reference h;
     gpio_exported := gpio_exported h;
     gpio_dir := gpio_dir h;
     gpio_in := gpio_in h;
     gpio_reads := gpio_reads h;
     adc_enabled := s;
     adc_isr := adc_isr h;
     adc_polls := adc_polls h;
     adc_lcdr := adc_lcdr h;
     clock_ret := clock_ret h;
     clock_tm := clock_tm h |}.

Definition set_adc_polls (n : nat) (h : hw) : hw :=
  {| calls := calls h;
     analog_reference := analog_reference h;
     gpio_exported := gpio_exported h;
     gpio_dir := gpio_dir h;
     gpio_in := gpio_in h;
     gpio_reads := gpio_reads h;
     adc_enabled := adc_enabled h;
     adc_isr := adc_isr h;
     adc_polls := n;
     adc_lcdr := adc_lcdr h;
     clock_ret := clock_ret h;
     clock_tm := clock_tm h |}.

Definition debug (format : string) (args : list Z) : M unit :=
  fun h => Done tt (log_call (DebugMsg format args) h).

Definition gpioExport (pin : Z) : M unit :=
  fun h => Done tt (set_gpio_exported ({[pin]} ∪ gpio_exported h) (log_call (GpioExport pin) h)).

Definition gpioSetDirInput (pin : Z) : M unit :=
  fun h => Done tt (set_gpio_dir (<[pin := DirInput]> (gpio_dir h)) (log_call (GpioSetDirInput pin) h)).

Definition gpioSetDirOutput (pin : Z) : M unit :=
  fun h => Done tt (set_gpio_dir (<[pin := DirOutput]> (gpio_dir h)) (log_call (GpioSetDirOutput pin) h)).

Definition gpioSetValue (pin value : Z) : M unit :=
  fun h => Done tt (log_call (GpioSetValue pin value) h).

Definition gpioGetValue (pin : Z) : M Z :=
  fun h => Done (gpio_in h (gpio_reads h))
                (set_gpio_reads (S (gpio_reads h)) (log_call (GpioGetValue pin) h)).

Definition adc_enable_channel (channel : Z) : M unit :=
  fun h => Done tt (set_adc_enabled ({[channel]} ∪ adc_enabled h) (log_call (AdcEnableChannel channel) h)).

Definition adc_disable_channel (channel : Z) : M unit :=
  fun h => Done tt (set_adc_enabled (adc_enabled h ∖ {[channel]}) (log_call (AdcDisableChannel channel) h)).

Definition adc_start : M unit :=
  fun h => Done tt (log_call AdcStart h).

Definition adc_get_status : M Z :=
  fun h => Done (u32 (adc_isr h (adc_polls h)))
                (set_adc_polls (S (adc_polls h)) (log_call AdcGetStatus h)).

Definition adc_get_latest_value : M Z :=
  fun h => Done (u32 (adc_lcdr h)) (log_call AdcGetLatestValue h).

Definition clock_gettime : M (Z * timespec) :=
  fun h => Done (clock_ret h, clock_tm h) (log_call ClockGettime h).

Definition usleep (usec : Z) : M unit :=
  fun h => Done tt (log_call (Usleep usec) h).

(** ** udoo.c *)

Section Udoo.
Context {B : Board}.

(** *** 2. Digital I/O *)

Definition pinMode (pin mode : Z) : M unit :=
  if negb (mode =? INPUT) && negb (mode =? OUTPUT) then
    debug "Mode can be either INPUT or OUTPUT" []
  else
    gpioExport pin ;;
    if mode =? INPUT then gpioSetDirInput pin else gpioSetDirOutput pin.

Definition digitalWrite (pin value : Z) : M unit := gpioSetValue pin value.

Definition digitalRead (pin : Z) : M Z := gpioGetValue pin.

(** *** 3. Analog I/O *)

Definition _readResolution : Z := 10.
Definition _writeResolution : Z := 8.

(** [from] and [to] are [uint32_t]; in the branch [from > to] the difference
    [from - to] does not wrap, nor does [to - from] in the last branch. *)
Definition mapResolution (value from to : Z) : option Z :=
  if from =? to then Some value
  else if from >? to then shr32 value (from - to)
  else shl32 value (to - from).

Definition analogReference (arefMode : Z) : M unit :=
  fun h => Done tt (set_analog_reference arefMode h).

(** The case labels of the switch in analogRead (there is no [case ADC6]). *)
Definition adc12_case (c : Z) : bool :=
  (c =? ADC0) || (c =? ADC1) || (c =? ADC2) || (c =? ADC3) || (c =? ADC4)
  || (c =? ADC5) || (c =? ADC7) || (c =? ADC8) || (c =? ADC9) || (c =? ADC10)
  || (c =? ADC11).

(** [while ((adc_get_status(ADC) & ADC_ISR_DRDY) != ADC_ISR_DRDY) ;]
    with a budget of [fuel] polls. *)
Fixpoint wait_drdy (fuel : nat) : M unit :=
  match fuel with
  | O => fun _ => Spinning
  | S fuel' =>
      status <- adc_get_status ;;
      if Z.land status ADC_ISR_DRDY =? ADC_ISR_DRDY then ret tt
      else wait_drdy fuel'
  end.

Definition analogRead (fuel : nat) (myPin : Z) : M Z :=
  if (myPin <? A0) || (myPin >? CANTX) then
    debug "%d is not an Analog Pin" [myPin] ;;
    ret (u32 NOT_ANALOG_PIN_ERROR)
  else
    let myPinChannel := u32 (ADCChannelNumber (analogPin myPin)) in
    if adc12_case (analogChannel (analogPin myPin)) then
      adc_enable_channel myPinChannel ;;
      adc_start ;;
      wait_drdy fuel ;;
      myPinValue <- adc_get_latest_value ;;
      myPinValue <- defined (mapResolution myPinValue (u32 ADC_RESOLUTION) (u32 _readResolution)) ;;
      adc_disable_channel myPinChannel ;;
      ret myPinValue
    else
      ret 0.

(** *** 4. Advanced I/O *)

(** [value |= digitalRead(dataPin) << n] on the [uint8_t value]: only the low
    eight bits of the shifted reading are kept. *)
Definition shiftIn (dataPin clockPin bitOrder : Z) : M Z :=
  for_loop 8 0 (fun i value =>
    digitalWrite clockPin HIGH ;;
    value <- (if bitOrder =? LSBFIRST then
                r <- digitalRead dataPin ;; ret (u8 (Z.lor value (Z.shiftl r i)))
              else
                r <- digitalRead dataPin ;; ret (u8 (Z.lor value (Z.shiftl r (7 - i))))) ;;
    digitalWrite clockPin LOW ;;
    ret value) 0.

(** [!!x] *)
Definition notnot (x : Z) : Z := if x =? 0 then 0 else 1.

Definition shiftOut (dataPin clockPin bitOrder val : Z) : M unit :=
  for_loop 8 0 (fun i (_ : unit) =>
    (if bitOrder =? LSBFIRST then
       digitalWrite dataPin (notnot (Z.land val (Z.shiftl 1 i)))
     else
       digitalWrite dataPin (notnot (Z.land val (Z.shiftl 1 (7 - i))))) ;;
    digitalWrite clockPin HIGH ;;
    digitalWrite clockPin LOW) tt.

(** *** 5. Time *)

(** Conversion to [unsigned long]. *)
Definition ulong (z : Z) : Z := z mod 2 ^ LONG_BIT.

(** [ms * 1000] is computed in [unsigned int]. *)
Definition delay (ms : Z) : M unit := usleep (u32 (ms * 1000)).

Definition delayMicroseconds (mcs : Z) : M unit := usleep mcs.

(** The sum is converted to [unsigned long]; as the comment of micros says,
    the count goes back to zero after some time. *)
Definition micros : M Z :=
  r <- clock_gettime ;;
  if fst r =? -1 then
    debug "Clock Time error" [] ;;
    ret (ulong CLOCK_TIME_ERROR)
  else
    ret (ulong (tv_sec (snd r) * 1000000 + Z.quot (tv_nsec (snd r)) 1000)).

Definition milis : M Z :=
  us <- micros ;; ret (Z.quot us 1000).

End Udoo.

(** ** Reading the call log *)

(** Appending a list of calls to the log, one [log_call] at a time. *)
Definition log_calls (cs : list call) (h : hw) : hw :=
  fold_left (fun h' c => log_call c h') cs h.

Definition is_adc_call (c : call) : bool :=
  match c with
  | AdcEnableChannel _ | AdcStart | AdcGetStatus | AdcGetLatestValue
  | AdcDisableChannel _ => true
  | _ => false
  end.

Definition is_gpio_call (c : call) : bool :=
  match c with
  | GpioExport _ | GpioSetDirInput _ | GpioSetDirOutput _ | GpioSetValue _ _
  | GpioGetValue _ => true
  | _ => false
  end.

Definition is_debug_call (c : call) : bool :=
  match c with DebugMsg _ _ => true | _ => false end.

(** The calls a computation makes when it is run from [h]. *)
Definition trace_of {A} (m : M A) (h : hw) : list call :=
  match m h with
  | Done _ h' => drop (length (calls h)) (calls h')
  | _ => []
  end.

(** A sample board, used to run the functions on concrete inputs: the pins
    54..61 are wired to the channels ADC7..ADC0 (so pin 55 sits on ADC6) and
    the other pins up to CANTX to a channel that is not a case label. *)
Definition sample_board : Board :=
  {| INPUT := 0; OUTPUT := 1; HIGH := 1; LOW := 0; LSBFIRST := 0; MSBFIRST := 1;
     A0 := 54; CANTX := 69;
     NOT_ANALOG_PIN_ERROR := -1; CLOCK_TIME_ERROR := -1;
     ADC_RESOLUTION := 12; ADC_ISR_DRDY := 16777216; AR_DEFAULT := 0;
     ADC0 := 0; ADC1 := 1; ADC2 := 2; ADC3 := 3; ADC4 := 4; ADC5 := 5;
     ADC7 := 7; ADC8 := 8; ADC9 := 9; ADC10 := 10; ADC11 := 11;
     analogPin := fun pin =>
       {| ADCChannelNumber := if pin <=? 61 then 61 - pin else 12;
          analogChannel := if pin <=? 61 then 61 - pin else 12 |};
     LONG_BIT := 32 |}.

(** A hardware state with an empty log; the converter reports data ready from
    its third poll on. *)
Definition sample_hw : hw :=
  {| calls := [];
     analog_reference := @AR_DEFAULT sample_board;
     gpio_exported := ∅;
     gpio_dir := ∅;
     gpio_in := fun n => nth n [1; 0; 1; 0; 0; 1; 0; 1] 0;
     gpio_reads := 0;
     adc_enabled := ∅;
     adc_isr := fun n => if (n <? 2)%nat then 0 else 16777216;
     adc_polls := 0;
     adc_lcdr := 4095;
     clock_ret := 0;
     clock_tm := {| tv_sec := 1700000000; tv_nsec := 123456789 |} |}.

(** ** Vocabulary of the statements *)

(** The values written to [pin] by the calls [cs], oldest first. *)
Definition written (pin : Z) (cs : list call) : list Z :=
  flat_map (fun c => match c with
                     | GpioSetValue p v => if p =? pin then [v] else []
                     | _ => []
                     end) cs.

(** The answers the next [n] calls of gpioGetValue will get in state [h]. *)
Definition upcoming_reads (n : nat) (h : hw) : list Z :=
  map (fun i => gpio_in h (i + gpio_reads h)%nat) (seq 0 n).

(** The data line is looped back: the levels [bits] that were written are
    the levels the next reads return, in the same order. *)
Definition looped_back (bits : list Z) (h : hw) : Prop :=
  upcoming_reads (List.length bits) h = bits.

(** Applying [f] to the final state of an outcome. *)
Definition on_final {A} (f : hw -> hw) (o : outcome A) : outcome A :=
  match o with
  | Done a h => Done a (f h)
  | Undefined => Undefined
  | Spinning => Spinning
  end.

(** The state after [n] more polls of the status register. *)
Definition polled (n : nat) (h : hw) : hw :=
  set_adc_polls (adc_polls h + n)%nat (log_calls (replicate n AdcGetStatus) h).

(** A computation that neither reads nor writes the global
    [analog_reference]: run from a state with another reference, it gives
    the same outcome, with that other reference in the final state. *)
Definition ignores_analog_reference {A} (m : M A) : Prop :=
  forall (r : Z) (h : hw),
    m (set_analog_reference r h) = on_final (set_analog_reference r) (m h).

(** The values taken by the counter of a loop of [n] iterations from [i]. *)
Fixpoint zrange (i : Z) (n : nat) : list Z :=
  match n with
  | O => []
  | S n' => i :: zrange (i + 1) n'
  end.

(** The state analogRead leaves after a conversion on [channel] that took
    [k] + 1 polls: what the five ADC calls of the acquisition branch do. *)
Definition after_conversion (channel : Z) (k : nat) (h : hw) : hw :=
  let h1 := set_adc_enabled ({[channel]} ∪ adc_enabled h)
              (log_call (AdcEnableChannel channel) h) in
  let h2 := log_call AdcGetLatestValue (polled (S k) (log_call AdcStart h1)) in
  set_adc_enabled (adc_enabled h2 ∖ {[channel]})
    (log_call (AdcDisableChannel channel) h2).

(** The byte whose bit i is bit 7 - i of [v]. *)
Definition mirror8 (v : Z) : Z :=
  fold_left (fun acc i => acc + Z.b2z (Z.testbit v i) * 2 ^ (7 - i))
            [0; 1; 2; 3; 4; 5; 6; 7] 0.

(** A logic level: 0 or 1. *)
Definition is_level (b : Z) : Prop := b = 0 \/ b = 1.

(** Setting what the next calls of clock_gettime answer. *)
Definition set_clock (ret : Z) (tm : timespec) (h : hw) : hw :=
  {| calls := calls h;
     analog_reference := analog_reference h;
     gpio_exported := gpio_exported h;
     gpio_dir := gpio_dir h;
     gpio_in := gpio_in h;
     gpio_reads := gpio_reads h;
     adc_enabled := adc_enabled h;
     adc_isr := adc_isr h;
     adc_polls := adc_polls h;
     adc_lcdr := adc_lcdr h;
     clock_ret := ret;
     clock_tm := tm |}.

Section Vocabulary.
Context {B : Board}.

(** The test of the polling loop of analogRead on a raw status word. *)
Definition drdy (status : Z) : bool :=
  Z.land (u32 status) ADC_ISR_DRDY =? ADC_ISR_DRDY.

(** From state [h], the converter answers "not ready" to the next [k] polls
    and "ready" to the one after. *)
Definition ready_after (k : nat) (h : hw) : Prop :=
  map (fun j => drdy (adc_isr h (adc_polls h + j)%nat)) (seq 0 (S k))
  = replicate k false ++ [true].

(** The converter never reports data ready from state [h] on. *)
Definition never_ready (h : hw) : Prop :=
  forall j : nat, drdy (adc_isr h (adc_polls h + j)%nat) = false.

(** The bit position used in iteration [i] of shiftIn and shiftOut. *)
Definition bit_index (bitOrder i : Z) : Z :=
  if bitOrder =? LSBFIRST then i else 7 - i.

(** The levels shiftOut puts on the data line, one per clock pulse. *)
Definition data_levels (bitOrder val : Z) : list Z :=
  map (fun i => notnot (Z.land val (Z.shiftl 1 (bit_index bitOrder i))))
      [0; 1; 2; 3; 4; 5; 6; 7].

(** The calls of one run of shiftOut and of shiftIn. *)
Definition shiftOut_calls (dataPin clockPin bitOrder val : Z) : list call :=
  flat_map (fun i => [GpioSetValue dataPin (notnot (Z.land val (Z.shiftl 1 (bit_index bitOrder i))));
                      GpioSetValue clockPin HIGH;
                      GpioSetValue clockPin LOW])
           [0; 1; 2; 3; 4; 5; 6; 7].

Definition shiftIn_calls (dataPin clockPin : Z) : list call :=
  flat_map (fun _ : Z => [GpioSetValue clockPin HIGH;
                          GpioGetValue dataPin;
                          GpioSetValue clockPin LOW])
           [0; 1; 2; 3; 4; 5; 6; 7].

(** The byte shiftIn assembles from the eight readings [rs]. *)
Definition assemble (bitOrder : Z) (rs : list Z) : Z :=
  fold_left (fun value ir => u8 (Z.lor value (Z.shiftl (snd ir) (bit_index bitOrder (fst ir)))))
            (combine [0; 1; 2; 3; 4; 5; 6; 7] rs) 0.

End Vocabulary.

(** ** Basic facts about the log *)

Lemma calls_log_call c h : calls (log_call c h) = calls h ++ [c].
Proof. reflexivity. Qed.

Lemma calls_log_calls cs h : calls (log_calls cs h) = calls h ++ cs.
Proof.
  revert h. induction cs as [|c cs IH]; intros h; cbn.
  - now rewrite app_nil_r.
  - fold (log_calls cs (log_call c h)). rewrite IH, calls_log_call.
    now rewrite <- app_assoc.
Qed.

Lemma drop_own_length {A} (l k : list A) : drop (length l) (l ++ k) = k.
Proof. induction l as [|x l IH]; cbn; [now destruct k | exact IH]. Qed.

(** ** Resolution mapper *)

Lemma shr32_defined v n : 0 <= n < 32 -> shr32 v n = Some (Z.shiftr v n).
Proof.
  intros [H0 H1]. unfold shr32.
  destruct (Z.leb_spec 0 n), (Z.ltb_spec n 32); cbn; auto; lia.
Qed.

Lemma shl32_defined v n : 0 <= n < 32 -> shl32 v n = Some (u32 (Z.shiftl v n)).
Proof.
  intros [H0 H1]. unfold shl32.
  destruct (Z.leb_spec 0 n), (Z.ltb_spec n 32); cbn; auto; lia.
Qed.

(** C1, as the code has it: when the two resolutions differ by less than 32,
    mapResolution returns the value unchanged for equal resolutions, the
    value shifted right by from - to (the quotient by 2^(from-to)) when
    from > to, and the value shifted left by to - from, cut to 32 bits,
    when from < to; on these arguments it always returns. *)
Theorem mapResolution_spec (value from to : Z) :
  Z.abs (from - to) < 32 ->
  (from = to -> mapResolution value from to = Some value) /\
  (from > to ->
     mapResolution value from to = Some (Z.shiftr value (from - to)) /\
     Z.shiftr value (from - to) = value / 2 ^ (from - to)) /\
  (from < to ->
     mapResolution value from to = Some (u32 (Z.shiftl value (to - from))) /\
     u32 (Z.shiftl value (to - from)) = (value * 2 ^ (to - from)) mod 2 ^ 32) /\
  (exists r, mapResolution value from to = Some r).
Proof.
  intros Habs. unfold mapResolution.
  destruct (Z.eqb_spec from to) as [E|NE].
  - split; [reflexivity|]. split; [lia|]. split; [lia|]. eauto.
  - destruct (Z.gtb_spec from to) as [G|G].
    + rewrite shr32_defined by lia.
      split; [lia|]. split; [|split; [lia|eauto]].
      intros _. split; [reflexivity|]. apply Z.shiftr_div_pow2. lia.
    + rewrite shl32_defined by lia.
      split; [lia|]. split; [lia|]. split; [|eauto].
      intros _. split; [reflexivity|].
      unfold u32. rewrite Z.shiftl_mul_pow2 by lia. reflexivity.
Qed.

Lemma mapResolution_spec_witness :
  mapResolution 4095 12 10 = Some 1023 /\
  mapResolution 255 8 12 = Some 4080 /\
  mapResolution 7 10 10 = Some 7.
Proof.
  destruct (mapResolution_spec 4095 12 10) as (_ & Hdown & _); [cbn; lia|].
  destruct (mapResolution_spec 255 8 12) as (_ & _ & Hup & _); [cbn; lia|].
  destruct (mapResolution_spec 7 10 10) as (Heq & _); [cbn; lia|].
  split; [|split].
  - destruct Hdown as [-> _]; [lia|reflexivity].
  - destruct Hup as [-> _]; [lia|reflexivity].
  - apply Heq. reflexivity.
Defined.

(** C1 as stated fails: a shift by 32 or more has no defined result, so
    mapResolution(1, 32, 0) returns no value. *)
Lemma mapResolution_not_total : mapResolution 1 32 0 = None.
Proof. reflexivity. Qed.

(** ** Digital pin controller *)

Section Facts.
Context {B : Board}.

(** C6: a mode other than INPUT and OUTPUT is reported on the diagnostic sink
    and nothing else happens (no GPIO call, no change of the GPIO state);
    for INPUT and for OUTPUT the pin is exported first and its direction is
    set next, to input for INPUT and to output for OUTPUT. *)
Theorem pinMode_spec (pin mode : Z) (h : hw) :
  INPUT <> OUTPUT ->
  (mode <> INPUT -> mode <> OUTPUT ->
     pinMode pin mode h
       = Done tt (log_call (DebugMsg "Mode can be either INPUT or OUTPUT" []) h) /\
     List.filter is_gpio_call (trace_of (pinMode pin mode) h) = []) /\
  (mode = INPUT ->
     pinMode pin mode h
       = Done tt (set_gpio_dir (<[pin := DirInput]> (gpio_dir h))
                    (log_call (GpioSetDirInput pin)
                       (set_gpio_exported ({[pin]} ∪ gpio_exported h)
                          (log_call (GpioExport pin) h)))) /\
     trace_of (pinMode pin mode) h = [GpioExport pin; GpioSetDirInput pin]) /\
  (mode = OUTPUT ->
     pinMode pin mode h
       = Done tt (set_gpio_dir (<[pin := DirOutput]> (gpio_dir h))
                    (log_call (GpioSetDirOutput pin)
                       (set_gpio_exported ({[pin]} ∪ gpio_exported h)
                          (log_call (GpioExport pin) h)))) /\
     trace_of (pinMode pin mode) h = [GpioExport pin; GpioSetDirOutput pin]).
Proof.
  intros Hdistinct. unfold trace_of, pinMode.
  destruct (Z.eqb_spec mode INPUT) as [Ei|Ni];
    destruct (Z.eqb_spec mode OUTPUT) as [Eo|No]; cbn [negb andb].
  - congruence.
  - split; [congruence|]. split; [|congruence]. intros _. split; [reflexivity|].
    cbn. rewrite <- app_assoc. apply drop_own_length.
  - split; [congruence|]. split; [congruence|]. intros _. split; [reflexivity|].
    cbn. rewrite <- app_assoc. apply drop_own_length.
  - split; [|split; congruence]. intros _ _. split; [reflexivity|].
    cbn. now rewrite drop_own_length.
Qed.

(** ** Analog pin reader *)

Lemma in_range_test (myPin : Z) :
  A0 <= myPin <= CANTX -> (myPin <? A0) || (myPin >? CANTX) = false.
Proof.
  intros [Hlo Hhi].
  destruct (Z.ltb_spec myPin A0); [lia|].
  destruct (Z.gtb_spec myPin CANTX); [lia|reflexivity].
Qed.

Lemma out_of_range_test (myPin : Z) :
  myPin < A0 \/ myPin > CANTX -> (myPin <? A0) || (myPin >? CANTX) = true.
Proof.
  intros Hout.
  destruct (Z.ltb_spec myPin A0); [reflexivity|].
  destruct (Z.gtb_spec myPin CANTX); [reflexivity|lia].
Qed.

(** C4: for a pin below A0 or above CANTX, analogRead logs the diagnostic,
    returns NOT_ANALOG_PIN_ERROR (as a uint32_t) and makes no call to the
    ADC, whatever the polling budget. *)
Theorem analogRead_out_of_range (fuel : nat) (myPin : Z) (h : hw) :
  myPin < A0 \/ myPin > CANTX ->
  analogRead fuel myPin h
    = Done (u32 NOT_ANALOG_PIN_ERROR)
           (log_call (DebugMsg "%d is not an Analog Pin" [myPin]) h) /\
  List.filter is_adc_call (trace_of (analogRead fuel myPin) h) = [].
Proof.
  intros Hout. unfold trace_of, analogRead.
  rewrite (out_of_range_test _ Hout). split; [reflexivity|].
  cbn. now rewrite drop_own_length.
Qed.

(** C5: for a pin in A0..CANTX whose analogChannel is none of the case labels
    of the switch, analogRead returns 0, makes no call at all and leaves the
    state as it was. *)
Theorem analogRead_default_branch (fuel : nat) (myPin : Z) (h : hw) :
  A0 <= myPin <= CANTX ->
  adc12_case (analogChannel (analogPin myPin)) = false ->
  analogRead fuel myPin h = Done 0 h /\
  trace_of (analogRead fuel myPin) h = [].
Proof.
  intros Hin Hcase. unfold trace_of, analogRead.
  rewrite (in_range_test _ Hin), Hcase. split; [reflexivity|].
  cbn. rewrite <- (app_nil_r (calls h)) at 2. apply drop_own_length.
Qed.

Lemma log_calls_cons c cs h : log_calls (c :: cs) h = log_calls cs (log_call c h).
Proof. reflexivity. Qed.

Lemma set_adc_polls_log_calls cs : forall h n m,
  set_adc_polls m (log_calls cs (set_adc_polls n h)) = set_adc_polls m (log_calls cs h).
Proof.
  induction cs as [|c cs IH]; intros h n m; [reflexivity|].
  rewrite !log_calls_cons.
  change (log_call c (set_adc_polls n h)) with (set_adc_polls n (log_call c h)).
  apply IH.
Qed.

Lemma polled_S n h :
  polled (S n) h = polled n (set_adc_polls (S (adc_polls h)) (log_call AdcGetStatus h)).
Proof.
  unfold polled. cbn [replicate]. rewrite log_calls_cons, set_adc_polls_log_calls.
  cbn [adc_polls set_adc_polls]. f_equal. lia.
Qed.

Lemma ready_after_S k h :
  ready_after (S k) h ->
  drdy (adc_isr h (adc_polls h)) = false /\
  ready_after k (set_adc_polls (S (adc_polls h)) (log_call AdcGetStatus h)).
Proof.
  unfold ready_after. intros Heq.
  rewrite <- (cons_seq (S k) 0), <- seq_shift, map_cons, map_map in Heq.
  change (replicate (S k) false ++ [true])
    with (false :: (replicate k false ++ [true])) in Heq.
  set (later := map _ (seq 0 (S k))) in Heq.
  set (expected := replicate k false ++ [true]) in Heq.
  injection Heq as Hnow Hlater. subst later expected.
  rewrite Nat.add_0_r in Hnow. split; [exact Hnow|].
  cbn [adc_isr adc_polls set_adc_polls log_call].
  rewrite <- Hlater. apply map_ext. intros j. do 2 f_equal. lia.
Qed.

Lemma wait_drdy_ready (k : nat) : forall (fuel : nat) (h : hw),
  ready_after k h -> (k < fuel)%nat ->
  wait_drdy fuel h = Done tt (polled (S k) h).
Proof.
  induction k as [|k IH]; intros fuel h Hready Hfuel;
    (destruct fuel as [|fuel]; [lia|]).
  - unfold ready_after in Hready. cbn in Hready.
    injection Hready as Hnow. unfold drdy in Hnow.
    cbn [wait_drdy]. unfold bind, adc_get_status.
    rewrite Nat.add_0_r in Hnow. rewrite Hnow.
    unfold ret, polled. cbn. now rewrite Nat.add_1_r.
  - apply ready_after_S in Hready as [Hnow Hlater].
    cbn [wait_drdy]. unfold bind at 1. unfold adc_get_status at 1.
    unfold drdy in Hnow. rewrite Hnow.
    rewrite (IH fuel _ Hlater) by lia. now rewrite <- polled_S.
Qed.

(** The loop of analogRead does not end while the converter is not ready:
    no polling budget suffices. *)
Lemma wait_drdy_never (fuel : nat) : forall h : hw,
  never_ready h -> wait_drdy fuel h = Spinning.
Proof.
  induction fuel as [|fuel IH]; intros h Hnever; [reflexivity|].
  cbn [wait_drdy]. unfold bind at 1. unfold adc_get_status at 1.
  pose proof (Hnever O) as Hnow. unfold drdy in Hnow.
  rewrite Nat.add_0_r in Hnow. rewrite Hnow.
  apply IH. intros j. specialize (Hnever (S j)).
  cbn [adc_isr adc_polls set_adc_polls log_call].
  rewrite <- Hnever. do 2 f_equal. lia.
Qed.



Lemma bind_Done {A C} (m : M A) (k : A -> M C) (h h' : hw) (a : A) :
  m h = Done a h' -> bind m k h = k a h'.
Proof. unfold bind. now intros ->. Qed.

Lemma adc_enabled_log_calls cs : forall h, adc_enabled (log_calls cs h) = adc_enabled h.
Proof.
  induction cs as [|c cs IH]; intros h; [reflexivity|].
  rewrite log_calls_cons, IH. reflexivity.
Qed.

Lemma adc_lcdr_log_calls cs : forall h, adc_lcdr (log_calls cs h) = adc_lcdr h.
Proof.
  induction cs as [|c cs IH]; intros h; [reflexivity|].
  rewrite log_calls_cons, IH. reflexivity.
Qed.

(** C3: for a pin in A0..CANTX whose analogChannel is one of the case labels,
    and a converter that reports data ready on its (k+1)-th poll, analogRead
    returns (any polling budget above k suffices), and its calls are, in this
    order: one channel enable, one start, k+1 status polls, one read of the
    latest value, one disable of the same channel.  The channel is not
    enabled afterwards, and no channel is enabled that was not before.  The
    value returned is the value read, mapped by mapResolution from
    ADC_RESOLUTION to the read resolution. *)
Theorem analogRead_sequence (fuel k : nat) (myPin value : Z) (h : hw) :
  A0 <= myPin <= CANTX ->
  adc12_case (analogChannel (analogPin myPin)) = true ->
  ready_after k h ->
  (k < fuel)%nat ->
  mapResolution (u32 (adc_lcdr h)) (u32 ADC_RESOLUTION) (u32 _readResolution)
    = Some value ->
  let channel := u32 (ADCChannelNumber (analogPin myPin)) in
  exists h' : hw,
    analogRead fuel myPin h = Done value h' /\
    trace_of (analogRead fuel myPin) h
      = [AdcEnableChannel channel; AdcStart]
        ++ replicate (S k) AdcGetStatus
        ++ [AdcGetLatestValue; AdcDisableChannel channel] /\
    adc_enabled h' = adc_enabled h ∖ {[channel]} /\
    (channel ∉ adc_enabled h') /\
    adc_polls h' = (adc_polls h + S k)%nat.
Proof.
  intros Hin Hcase Hready Hfuel Hmap channel.
  unfold trace_of, analogRead. rewrite (in_range_test _ Hin), Hcase.
  fold channel.
  erewrite bind_Done by reflexivity.
  erewrite bind_Done by reflexivity.
  erewrite bind_Done by (apply (wait_drdy_ready k); [exact Hready|exact Hfuel]).
  erewrite bind_Done by reflexivity.
  erewrite bind_Done; cycle 1.
  { unfold polled. cbn [adc_lcdr set_adc_polls log_call].
    rewrite adc_lcdr_log_calls. cbn [adc_lcdr set_adc_enabled log_call].
    rewrite Hmap. reflexivity. }
  erewrite bind_Done by reflexivity. unfold ret.
  eexists. split; [reflexivity|].
  cbn [calls adc_enabled adc_polls set_adc_enabled set_adc_polls log_call].
  rewrite calls_log_calls, adc_enabled_log_calls.
  cbn [calls adc_enabled adc_polls set_adc_enabled set_adc_polls log_call].
  split; [|split; [|split]].
  - rewrite <- !app_assoc. rewrite drop_own_length. reflexivity.
  - apply set_eq. intros x.
    rewrite !elem_of_difference, elem_of_union, elem_of_singleton. tauto.
  - rewrite elem_of_difference, elem_of_singleton. tauto.
  - reflexivity.
Qed.

(** With a converter that never reports data ready, analogRead stays in its
    polling loop: it returns under no polling budget. *)
Lemma analogRead_blocks (fuel : nat) (myPin : Z) (h : hw) :
  A0 <= myPin <= CANTX ->
  adc12_case (analogChannel (analogPin myPin)) = true ->
  never_ready h ->
  analogRead fuel myPin h = Spinning.
Proof.
  intros Hin Hcase Hnever. unfold analogRead.
  rewrite (in_range_test _ Hin), Hcase.
  erewrite bind_Done by reflexivity.
  erewrite bind_Done by reflexivity.
  unfold bind at 1. rewrite wait_drdy_never; [reflexivity|exact Hnever].
Qed.

Lemma ignores_ret {A} (a : A) : ignores_analog_reference (ret a).
Proof. intros r h. reflexivity. Qed.

Lemma ignores_bind {A C} (m : M A) (k : A -> M C) :
  ignores_analog_reference m ->
  (forall a, ignores_analog_reference (k a)) ->
  ignores_analog_reference (bind m k).
Proof.
  intros Hm Hk r h. unfold bind. rewrite Hm.
  destruct (m h) as [a h'| |]; cbn; [apply Hk|reflexivity|reflexivity].
Qed.

Lemma ignores_defined {A} (o : option A) : ignores_analog_reference (defined o).
Proof. intros r h. now destruct o. Qed.

Lemma ignores_wait_drdy (fuel : nat) : ignores_analog_reference (wait_drdy fuel).
Proof.
  induction fuel as [|fuel IH]; [intros r h; reflexivity|].
  cbn [wait_drdy]. apply ignores_bind; [intros r h; reflexivity|].
  intros status. destruct (_ =? _); [apply ignores_ret|exact IH].
Qed.

Lemma ignores_analogRead (fuel : nat) (myPin : Z) :
  ignores_analog_reference (analogRead fuel myPin).
Proof.
  unfold analogRead.
  destruct (_ || _).
  - apply ignores_bind; [intros r h; reflexivity|intros _; apply ignores_ret].
  - destruct (adc12_case _); [|apply ignores_ret].
    repeat (apply ignores_bind; [|intros ?]);
      try (intros r h; reflexivity);
      auto using ignores_wait_drdy, ignores_defined, ignores_ret.
Qed.

(** C8, as the code has it: analogRead never reads the analog reference.
    For every pin, polling budget and state, the value returned, the calls
    made and every other part of the final state are the same whatever the
    reference is; the reference itself is left as it was.  Only
    analogReference touches it, and it only stores its argument. *)
Theorem analogRead_ignores_reference (fuel : nat) (myPin r : Z) (h : hw) :
  analogRead fuel myPin (set_analog_reference r h)
    = on_final (set_analog_reference r) (analogRead fuel myPin h) /\
  result (analogRead fuel myPin (set_analog_reference r h))
    = result (analogRead fuel myPin h) /\
  trace_of (analogRead fuel myPin) (set_analog_reference r h)
    = trace_of (analogRead fuel myPin) h /\
  analogReference r h = Done tt (set_analog_reference r h).
Proof.
  pose proof (ignores_analogRead fuel myPin r h) as Heq.
  split; [exact Heq|]. unfold trace_of. rewrite Heq.
  destruct (analogRead fuel myPin h); cbn; auto.
Qed.

(** ** Time *)

(** C10: delay passes to usleep the product ms * 1000 reduced modulo 2^32.
    For ms above 4294967 the product does not fit: the duration requested is
    the product less a positive multiple of 2^32, hence less than ms
    milliseconds; up to 4294967 it is the product itself. *)
Theorem delay_wraps (ms : Z) (h : hw) :
  delay ms h = Done tt (log_call (Usleep ((ms * 1000) mod 2 ^ 32)) h) /\
  (4294967 < ms ->
     (ms * 1000) mod 2 ^ 32 < ms * 1000 /\
     exists wraps : Z,
       0 < wraps /\ (ms * 1000) mod 2 ^ 32 = ms * 1000 - wraps * 2 ^ 32) /\
  (0 <= ms <= 4294967 -> (ms * 1000) mod 2 ^ 32 = ms * 1000).
Proof.
  split; [reflexivity|]. split.
  - intros Hbig.
    pose proof (Z.mod_pos_bound (ms * 1000) (2 ^ 32) ltac:(lia)) as Hbound.
    pose proof (Z.div_mod (ms * 1000) (2 ^ 32) ltac:(lia)) as Hdm.
    split; [lia|]. exists (ms * 1000 / 2 ^ 32). split; [|lia].
    apply Z.div_str_pos. lia.
  - intros Hsmall. apply Z.mod_small. lia.
Qed.

(** milis is micros followed by a division by 1000, on every path. *)
Lemma milis_unfold (h : hw) :
  milis h = match micros h with
            | Done us h' => Done (us ÷ 1000) h'
            | Undefined => Undefined
            | Spinning => Spinning
            end.
Proof. reflexivity. Qed.

(** C7: when clock_gettime succeeds, micros returns the time in microseconds
    (as an unsigned long) and milis, run on the same clock reading, returns
    that number divided by 1000 with truncation. *)
Theorem milis_is_micros_div_1000 (h : hw) :
  clock_ret h <> -1 ->
  let us := ulong (tv_sec (clock_tm h) * 1000000 + tv_nsec (clock_tm h) ÷ 1000) in
  micros h = Done us (log_call ClockGettime h) /\
  milis h = Done (us ÷ 1000) (log_call ClockGettime h).
Proof.
  intros Hok us. rewrite milis_unfold.
  assert (micros h = Done us (log_call ClockGettime h)) as ->; [|split; reflexivity].
  unfold micros, bind, clock_gettime. cbn [fst snd].
  destruct (Z.eqb_spec (clock_ret h) (-1)); [contradiction|reflexivity].
Qed.

(** ** Shift protocol *)

Lemma for_loop_S {S : Type} n i (body : Z -> S -> M S) s :
  for_loop (Datatypes.S n) i body s
  = (s' <- body i s ;; for_loop n (i + 1) body s').
Proof. reflexivity. Qed.

Lemma log_calls_app cs1 cs2 h :
  log_calls (cs1 ++ cs2) h = log_calls cs2 (log_calls cs1 h).
Proof. unfold log_calls. apply fold_left_app. Qed.

(** A loop whose body only makes calls makes the calls of its iterations. *)
Lemma for_loop_calls (cs : Z -> list call) (body : Z -> unit -> M unit) :
  (forall i h, body i tt h = Done tt (log_calls (cs i) h)) ->
  forall n i h,
    for_loop n i body tt h = Done tt (log_calls (flat_map cs (zrange i n)) h).
Proof.
  intros Hbody. induction n as [|n IH]; intros i h; [reflexivity|].
  rewrite for_loop_S. erewrite bind_Done by apply Hbody.
  rewrite IH. cbn [zrange flat_map]. now rewrite log_calls_app.
Qed.

Lemma shiftOut_run (dataPin clockPin bitOrder val : Z) (h : hw) :
  shiftOut dataPin clockPin bitOrder val h
  = Done tt (log_calls (shiftOut_calls dataPin clockPin bitOrder val) h).
Proof.
  unfold shiftOut, shiftOut_calls.
  change [0; 1; 2; 3; 4; 5; 6; 7] with (zrange 0 8).
  apply for_loop_calls. intros i h0. unfold bit_index.
  destruct (bitOrder =? LSBFIRST); reflexivity.
Qed.

Lemma set_gpio_reads_log_calls cs : forall h n m,
  set_gpio_reads m (log_calls cs (set_gpio_reads n h)) = set_gpio_reads m (log_calls cs h).
Proof.
  induction cs as [|c cs IH]; intros h n m; [reflexivity|].
  rewrite !log_calls_cons.
  change (log_call c (set_gpio_reads n h)) with (set_gpio_reads n (log_call c h)).
  apply IH.
Qed.

Lemma upcoming_reads_S n h :
  upcoming_reads (S n) h
  = gpio_in h (gpio_reads h)
    :: upcoming_reads n (set_gpio_reads (S (gpio_reads h)) h).
Proof.
  unfold upcoming_reads. rewrite <- cons_seq, <- seq_shift, map_cons, map_map.
  cbn [gpio_in gpio_reads set_gpio_reads]. f_equal.
  apply map_ext. intros j. f_equal. lia.
Qed.

Lemma shiftIn_loop (dataPin clockPin bitOrder : Z) : forall n i value h,
  for_loop n i (fun i value =>
    digitalWrite clockPin HIGH ;;
    value <- (if bitOrder =? LSBFIRST then
                r <- digitalRead dataPin ;; ret (u8 (Z.lor value (Z.shiftl r i)))
              else
                r <- digitalRead dataPin ;; ret (u8 (Z.lor value (Z.shiftl r (7 - i))))) ;;
    digitalWrite clockPin LOW ;;
    ret value) value h
  = Done (fold_left (fun value ir => u8 (Z.lor value (Z.shiftl (snd ir) (bit_index bitOrder (fst ir)))))
                    (combine (zrange i n) (upcoming_reads n h)) value)
         (set_gpio_reads (n + gpio_reads h)
            (log_calls (flat_map (fun _ : Z => [GpioSetValue clockPin HIGH;
                                                GpioGetValue dataPin;
                                                GpioSetValue clockPin LOW])
                                 (zrange i n)) h)).
Proof.
  induction n as [|n IH]; intros i value h.
  - cbn. now destruct h.
  - rewrite for_loop_S.
    rewrite (bind_Done _ _ h
               (log_call (GpioSetValue clockPin LOW)
                  (set_gpio_reads (S (gpio_reads h))
                     (log_call (GpioGetValue dataPin)
                        (log_call (GpioSetValue clockPin HIGH) h))))
               (u8 (Z.lor value (Z.shiftl (gpio_in h (gpio_reads h)) (bit_index bitOrder i)))));
      cycle 1.
    { unfold bind, digitalWrite, digitalRead, gpioSetValue, gpioGetValue, ret, bit_index.
      destruct (bitOrder =? LSBFIRST); reflexivity. }
    rewrite IH. rewrite upcoming_reads_S. cbn [zrange combine fold_left flat_map fst snd].
    f_equal.
    rewrite log_calls_app.
    change (log_call (GpioSetValue clockPin LOW)
              (set_gpio_reads (S (gpio_reads h))
                 (log_call (GpioGetValue dataPin)
                    (log_call (GpioSetValue clockPin HIGH) h))))
      with (set_gpio_reads (S (gpio_reads h))
              (log_calls [GpioSetValue clockPin HIGH; GpioGetValue dataPin;
                          GpioSetValue clockPin LOW] h)).
    rewrite set_gpio_reads_log_calls. cbn [gpio_reads set_gpio_reads].
    f_equal. lia.
Qed.

Lemma shiftIn_run (dataPin clockPin bitOrder : Z) (h : hw) :
  shiftIn dataPin clockPin bitOrder h
  = Done (assemble bitOrder (upcoming_reads 8 h))
         (set_gpio_reads (8 + gpio_reads h) (log_calls (shiftIn_calls dataPin clockPin) h)).
Proof.
  unfold shiftIn, shiftIn_calls, assemble.
  change [0; 1; 2; 3; 4; 5; 6; 7] with (zrange 0 8).
  apply shiftIn_loop.
Qed.

(** A property checked on each of the 256 byte values holds of every byte. *)
Lemma all_bytes (f : Z -> bool) :
  forallb f (map Z.of_nat (seq 0 256)) = true ->
  forall v, 0 <= v < 256 -> f v = true.
Proof.
  intros Hall v Hv. rewrite forallb_forall in Hall. apply Hall.
  apply in_map_iff. exists (Z.to_nat v). split; [lia|].
  apply in_seq. lia.
Qed.

Lemma written_shiftOut_calls (dataPin clockPin bitOrder val : Z) :
  dataPin <> clockPin ->
  written dataPin (shiftOut_calls dataPin clockPin bitOrder val)
  = data_levels bitOrder val.
Proof.
  intros Hne. unfold shiftOut_calls, data_levels, written.
  cbn [flat_map map app]. rewrite Z.eqb_refl.
  destruct (Z.eqb_spec clockPin dataPin) as [E|_]; [congruence|].
  reflexivity.
Qed.

Lemma assemble_data_levels (bitOrder val : Z) :
  0 <= val < 256 -> assemble bitOrder (data_levels bitOrder val) = val.
Proof.
  intros Hval. unfold assemble, data_levels, bit_index.
  apply Z.eqb_eq. revert val Hval.
  destruct (bitOrder =? LSBFIRST).
  - apply (all_bytes (fun val => _ =? val)). vm_compute. reflexivity.
  - apply (all_bytes (fun val => _ =? val)). vm_compute. reflexivity.
Qed.

Lemma trace_of_shiftOut (dataPin clockPin bitOrder val : Z) (h : hw) :
  trace_of (shiftOut dataPin clockPin bitOrder val) h
  = shiftOut_calls dataPin clockPin bitOrder val.
Proof.
  unfold trace_of. rewrite shiftOut_run, calls_log_calls. apply drop_own_length.
Qed.

Lemma trace_of_shiftIn (dataPin clockPin bitOrder : Z) (h : hw) :
  trace_of (shiftIn dataPin clockPin bitOrder) h = shiftIn_calls dataPin clockPin.
Proof.
  unfold trace_of. rewrite shiftIn_run. cbn [calls set_gpio_reads].
  rewrite calls_log_calls. apply drop_own_length.
Qed.

(** C2: let shiftOut send the byte val (0..255) on a data pin distinct from
    the clock pin, and let the levels it wrote to the data pin be what the
    reads of the data pin return afterwards, in the same order.  Then shiftIn
    with the same bit order returns val.  This holds for LSBFIRST, for
    MSBFIRST and for any other bit order value. *)
Theorem shift_loopback (dataPin clockPin bitOrder val : Z) (h_out h_in : hw) :
  0 <= val < 256 ->
  dataPin <> clockPin ->
  looped_back (written dataPin (trace_of (shiftOut dataPin clockPin bitOrder val) h_out)) h_in ->
  result (shiftIn dataPin clockPin bitOrder h_in) = Some val.
Proof.
  intros Hval Hne Hloop.
  rewrite trace_of_shiftOut, written_shiftOut_calls in Hloop by exact Hne.
  unfold looped_back in Hloop. change (List.length (data_levels bitOrder val)) with 8%nat in Hloop.
  rewrite shiftIn_run, Hloop. cbn [result].
  now rewrite assemble_data_levels.
Qed.

(** C9: a bit order other than LSBFIRST, inside the enumeration or not, makes
    shiftIn and shiftOut do exactly what they do for MSBFIRST: same result,
    same calls, same final state.  Neither function tests the argument
    against anything else, and neither logs a diagnostic. *)
Theorem shift_order_defaults_to_msb (dataPin clockPin bitOrder val : Z) (h : hw) :
  MSBFIRST <> LSBFIRST ->
  bitOrder <> LSBFIRST ->
  shiftIn dataPin clockPin bitOrder h = shiftIn dataPin clockPin MSBFIRST h /\
  shiftOut dataPin clockPin bitOrder val h = shiftOut dataPin clockPin MSBFIRST val h /\
  List.filter is_debug_call (trace_of (shiftIn dataPin clockPin bitOrder) h) = [] /\
  List.filter is_debug_call (trace_of (shiftOut dataPin clockPin bitOrder val) h) = [].
Proof.
  intros Hmsb Hother.
  split; [|split; [|split]].
  - unfold shiftIn.
    destruct (Z.eqb_spec bitOrder LSBFIRST), (Z.eqb_spec MSBFIRST LSBFIRST);
      try contradiction; reflexivity.
  - unfold shiftOut.
    destruct (Z.eqb_spec bitOrder LSBFIRST), (Z.eqb_spec MSBFIRST LSBFIRST);
      try contradiction; reflexivity.
  - rewrite trace_of_shiftIn. reflexivity.
  - rewrite trace_of_shiftOut. reflexivity.
Qed.

End Facts.

(** ** The theorems at concrete inputs *)

Lemma pinMode_spec_witness :
  trace_of (pinMode (B := sample_board) 13 1) sample_hw
    = [GpioExport 13; GpioSetDirOutput 13] /\
  trace_of (pinMode (B := sample_board) 13 0) sample_hw
    = [GpioExport 13; GpioSetDirInput 13] /\
  trace_of (pinMode (B := sample_board) 13 7) sample_hw
    = [DebugMsg "Mode can be either INPUT or OUTPUT" []].
Proof.
  assert (@INPUT sample_board <> @OUTPUT sample_board) as Hne by discriminate.
  destruct (@pinMode_spec sample_board 13 1 sample_hw Hne) as (_ & _ & Hout).
  destruct (@pinMode_spec sample_board 13 0 sample_hw Hne) as (_ & Hin & _).
  split; [apply Hout; reflexivity|]. split; [apply Hin; reflexivity|].
  reflexivity.
Defined.

Lemma analogRead_out_of_range_witness :
  analogRead (B := sample_board) 0 13 sample_hw
  = Done 4294967295 (log_call (DebugMsg "%d is not an Analog Pin" [13]) sample_hw).
Proof.
  apply (@analogRead_out_of_range sample_board 0 13 sample_hw).
  left. cbn. lia.
Defined.

Lemma analogRead_default_branch_witness :
  analogRead (B := sample_board) 0 55 sample_hw = Done 0 sample_hw.
Proof.
  apply (@analogRead_default_branch sample_board 0 55 sample_hw).
  - cbn. lia.
  - reflexivity.
Defined.

Lemma analogRead_sequence_witness :
  result (analogRead (B := sample_board) 5 54 sample_hw) = Some 1023 /\
  trace_of (analogRead (B := sample_board) 5 54) sample_hw
  = [AdcEnableChannel 7; AdcStart; AdcGetStatus; AdcGetStatus; AdcGetStatus;
     AdcGetLatestValue; AdcDisableChannel 7].
Proof.
  destruct (@analogRead_sequence sample_board 5 2 54 1023 sample_hw)
    as (h' & Hrun & Htrace & _).
  - cbn. lia.
  - reflexivity.
  - reflexivity.
  - lia.
  - reflexivity.
  - rewrite Hrun. split; [reflexivity|exact Htrace].
Defined.

(** C8 as stated fails: on pin 54 of the sample board, analogRead returns
    the same value by the same calls whether the analog reference is 0 or 1,
    and the reference it is started with comes out unchanged. *)
Lemma analogRead_reference_unread :
  result (analogRead (B := sample_board) 5 54 (set_analog_reference 0 sample_hw)) = Some 1023 /\
  result (analogRead (B := sample_board) 5 54 (set_analog_reference 1 sample_hw)) = Some 1023 /\
  trace_of (analogRead (B := sample_board) 5 54) (set_analog_reference 0 sample_hw)
  = trace_of (analogRead (B := sample_board) 5 54) (set_analog_reference 1 sample_hw) /\
  option_map analog_reference
    (final (analogRead (B := sample_board) 5 54 (set_analog_reference 1 sample_hw))) = Some 1.
Proof. vm_compute. repeat split. Qed.

Lemma milis_is_micros_div_1000_witness :
  micros (B := sample_board) sample_hw = Done 404759104 (log_call ClockGettime sample_hw) /\
  milis (B := sample_board) sample_hw = Done 404759 (log_call ClockGettime sample_hw).
Proof.
  apply (@milis_is_micros_div_1000 sample_board sample_hw). discriminate.
Defined.

Lemma shift_loopback_witness :
  result (shiftIn (B := sample_board) 2 3 0 sample_hw) = Some 165.
Proof.
  apply (@shift_loopback sample_board 2 3 0 165 sample_hw sample_hw).
  - lia.
  - discriminate.
  - vm_compute. reflexivity.
Defined.

Lemma shift_order_defaults_to_msb_witness :
  shiftIn (B := sample_board) 2 3 2 sample_hw = shiftIn (B := sample_board) 2 3 1 sample_hw /\
  shiftOut (B := sample_board) 2 3 2 165 sample_hw
  = shiftOut (B := sample_board) 2 3 1 165 sample_hw.
Proof.
  destruct (@shift_order_defaults_to_msb sample_board 2 3 2 165 sample_hw)
    as (Hin & Hout & _); [discriminate|discriminate|].
  split; [exact Hin|exact Hout].
Defined.

(** ** Further facts: the resolution mapper *)

Lemma mapResolution_down (value from to : Z) :
  to < from -> from - to < 32 ->
  mapResolution value from to = Some (value / 2 ^ (from - to)).
Proof.
  intros Hlt Hd. unfold mapResolution.
  destruct (Z.eqb_spec from to); [lia|].
  destruct (Z.gtb_spec from to); [|lia].
  rewrite shr32_defined by lia. now rewrite Z.shiftr_div_pow2 by lia.
Qed.

Lemma mapResolution_up (value from to : Z) :
  from < to -> to - from < 32 ->
  mapResolution value from to = Some ((value * 2 ^ (to - from)) mod 2 ^ 32).
Proof.
  intros Hlt Hd. unfold mapResolution.
  destruct (Z.eqb_spec from to); [lia|].
  destruct (Z.gtb_spec from to); [lia|].
  rewrite shl32_defined by lia. unfold u32. now rewrite Z.shiftl_mul_pow2 by lia.
Qed.

Lemma mapResolution_same (value from : Z) : mapResolution value from from = Some value.
Proof. unfold mapResolution. now rewrite Z.eqb_refl. Qed.

Lemma pow2_split (a b : Z) : 0 <= b <= a -> 2 ^ a = 2 ^ b * 2 ^ (a - b).
Proof. intros H. rewrite <- Z.pow_add_r by lia. f_equal. lia. Qed.

(** X1: a sample that fits in [from] bits is mapped to a sample that fits in
    [to] bits (for widths up to 32 that differ by less than 32), and mapping
    to a wider resolution loses nothing: the result is the value times
    2^(to-from). *)
Theorem mapResolution_fits (value from to : Z) :
  0 <= to <= 32 ->
  Z.abs (from - to) < 32 ->
  0 <= value < 2 ^ from ->
  exists r, mapResolution value from to = Some r /\
            0 <= r < 2 ^ to /\
            (from <= to -> r = value * 2 ^ (to - from)).
Proof.
  intros Hto Habs Hval.
  assert (0 <= from) as Hfrom.
  { destruct (Z.lt_ge_cases from 0) as [Hneg|]; [|assumption].
    rewrite Z.pow_neg_r in Hval by assumption. lia. }
  destruct (Z.lt_trichotomy from to) as [Hlt|[Heq|Hgt]].
  - rewrite mapResolution_up by lia.
    assert (0 < 2 ^ (to - from)) by (apply Z.pow_pos_nonneg; lia).
    assert (value * 2 ^ (to - from) < 2 ^ to) as Hfit.
    { rewrite (pow2_split to from) by lia. nia. }
    assert (2 ^ to <= 2 ^ 32) by (apply Z.pow_le_mono_r; lia).
    rewrite Z.mod_small by nia.
    eexists. split; [reflexivity|]. split; [nia|reflexivity].
  - subst to. rewrite mapResolution_same.
    eexists. split; [reflexivity|]. split; [lia|].
    intros _. rewrite Z.sub_diag. lia.
  - rewrite mapResolution_down by lia.
    assert (0 < 2 ^ (from - to)) by (apply Z.pow_pos_nonneg; lia).
    eexists. split; [reflexivity|]. split; [|lia]. split.
    + apply Z.div_pos; lia.
    + apply Z.div_lt_upper_bound; [lia|].
      rewrite Z.mul_comm, <- pow2_split by lia. lia.
Qed.

(** X2: mapping a sample of [from] bits up to a wider resolution (at most 32
    bits) and back down returns the sample. *)
Theorem mapResolution_up_down (value from to : Z) :
  from <= to <= 32 ->
  to - from < 32 ->
  0 <= value < 2 ^ from ->
  exists up, mapResolution value from to = Some up /\
             mapResolution up to from = Some value.
Proof.
  intros Hw Hd Hval.
  assert (0 <= from) as Hfrom.
  { destruct (Z.lt_ge_cases from 0) as [Hneg|]; [|assumption].
    rewrite Z.pow_neg_r in Hval by assumption. lia. }
  destruct (Z.eq_dec from to) as [->|Hne].
  - exists value. now rewrite mapResolution_same.
  - rewrite mapResolution_up by lia.
    assert (0 < 2 ^ (to - from)) by (apply Z.pow_pos_nonneg; lia).
    assert (value * 2 ^ (to - from) < 2 ^ to).
    { rewrite (pow2_split to from) by lia. nia. }
    assert (2 ^ to <= 2 ^ 32) by (apply Z.pow_le_mono_r; lia).
    rewrite Z.mod_small by nia.
    eexists. split; [reflexivity|].
    rewrite mapResolution_down by lia. now rewrite Z.div_mul by lia.
Qed.

(** X3: mapping a 32-bit value down to a narrower resolution and back up
    clears its from-to low bits and changes nothing else: the result is the
    value less its remainder modulo 2^(from-to), never above the value. *)
Theorem mapResolution_down_up (value from to : Z) :
  to <= from ->
  from - to < 32 ->
  0 <= value < 2 ^ 32 ->
  exists down r, mapResolution value from to = Some down /\
                 mapResolution down to from = Some r /\
                 r = value - value mod 2 ^ (from - to) /\
                 r <= value.
Proof.
  intros Hw Hd Hval.
  assert (0 < 2 ^ (from - to)) as Hpos by (apply Z.pow_pos_nonneg; lia).
  pose proof (Z.mod_pos_bound value (2 ^ (from - to)) Hpos) as Hrem.
  destruct (Z.eq_dec from to) as [->|Hne].
  - exists value, value. rewrite mapResolution_same.
    rewrite Z.sub_diag in *. change (2 ^ 0) with 1 in *. 
    repeat split; lia.
  - rewrite mapResolution_down by lia.
    eexists. eexists. split; [reflexivity|].
    rewrite mapResolution_up by lia. split; [reflexivity|].
    pose proof (Z.div_mod value (2 ^ (from - to)) ltac:(lia)) as Hdm.
    pose proof (Z.mod_le value (2 ^ (from - to)) ltac:(lia) Hpos) as Hle.
    rewrite Z.mod_small; lia.
Qed.

(** X4: mapping down in two steps is mapping down in one: a to b to c gives
    what a to c gives, for c <= b <= a with a - c < 32. *)
Theorem mapResolution_down_compose (value a b c : Z) :
  c <= b <= a ->
  a - c < 32 ->
  exists mid, mapResolution value a b = Some mid /\
              mapResolution mid b c = mapResolution value a c.
Proof.
  intros Hw Hd.
  destruct (Z.eq_dec a b) as [->|Hab].
  { exists value. now rewrite mapResolution_same. }
  destruct (Z.eq_dec b c) as [->|Hbc].
  { eexists. split; [apply mapResolution_down; lia|].
    rewrite mapResolution_same. symmetry. apply mapResolution_down; lia. }
  eexists. split; [apply mapResolution_down; lia|].
  rewrite !mapResolution_down by lia. f_equal.
  assert (0 < 2 ^ (a - b)) by (apply Z.pow_pos_nonneg; lia).
  assert (0 < 2 ^ (b - c)) by (apply Z.pow_pos_nonneg; lia).
  rewrite Z.div_div by lia.
  rewrite <- Z.pow_add_r by lia. do 2 f_equal. lia.
Qed.

(** X5: mapping down keeps the order of samples. *)
Theorem mapResolution_monotone (v1 v2 from to : Z) :
  to <= from ->
  from - to < 32 ->
  v1 <= v2 ->
  exists r1 r2, mapResolution v1 from to = Some r1 /\
                mapResolution v2 from to = Some r2 /\
                r1 <= r2.
Proof.
  intros Hw Hd Hle.
  destruct (Z.eq_dec from to) as [->|Hne].
  - exists v1, v2. now rewrite !mapResolution_same.
  - rewrite !mapResolution_down by lia. eexists. eexists.
    split; [reflexivity|]. split; [reflexivity|].
    apply Z.div_le_mono; [apply Z.pow_pos_nonneg; lia|assumption].
Qed.

(** ** Further facts: the analog pin reader *)

Section MoreFacts.
Context {B : Board}.

Lemma ready_after_now h :
  drdy (adc_isr h (adc_polls h)) = true -> ready_after 0 h.
Proof.
  intros Hnow. unfold ready_after. cbn [seq map replicate app].
  now rewrite Nat.add_0_r, Hnow.
Qed.

Lemma ready_after_later k h :
  drdy (adc_isr h (adc_polls h)) = false ->
  ready_after k (set_adc_polls (S (adc_polls h)) (log_call AdcGetStatus h)) ->
  ready_after (S k) h.
Proof.
  unfold ready_after. intros Hnow Hlater.
  rewrite <- (cons_seq (S k) 0), <- seq_shift, map_cons, map_map.
  rewrite Nat.add_0_r, Hnow.
  change (replicate (S k) false ++ [true])
    with (false :: (replicate k false ++ [true])).
  f_equal. rewrite <- Hlater.
  cbn [adc_isr adc_polls set_adc_polls log_call].
  apply map_ext. intros j. do 2 f_equal. lia.
Qed.

(** The polling loop ends only on a poll that shows data ready. *)
Lemma wait_drdy_done (fuel : nat) : forall (h h' : hw) (u : unit),
  wait_drdy fuel h = Done u h' ->
  exists k, (k < fuel)%nat /\ ready_after k h /\ h' = polled (S k) h.
Proof.
  induction fuel as [|fuel IH]; intros h h' u Hrun; [discriminate|].
  cbn [wait_drdy] in Hrun. unfold bind at 1 in Hrun.
  unfold adc_get_status at 1 in Hrun.
  destruct (drdy (adc_isr h (adc_polls h))) eqn:Hnow; unfold drdy in Hnow;
    rewrite Hnow in Hrun.
  - exists O. split; [lia|]. split; [now apply ready_after_now|].
    unfold ret in Hrun. injection Hrun as _ <-.
    unfold polled. cbn. now rewrite Nat.add_1_r.
  - apply IH in Hrun as (k & Hk & Hready & ->).
    exists (S k). split; [lia|]. split; [now apply ready_after_later|].
    now rewrite <- polled_S.
Qed.

(** The acquisition branch of analogRead, run to its end. *)
Lemma analogRead_run (fuel k : nat) (myPin value : Z) (h : hw) :
  A0 <= myPin <= CANTX ->
  adc12_case (analogChannel (analogPin myPin)) = true ->
  ready_after k h ->
  (k < fuel)%nat ->
  mapResolution (u32 (adc_lcdr h)) (u32 ADC_RESOLUTION) (u32 _readResolution)
    = Some value ->
  analogRead fuel myPin h
  = Done value (after_conversion (u32 (ADCChannelNumber (analogPin myPin))) k h).
Proof.
  intros Hin Hcase Hready Hfuel Hmap.
  unfold analogRead. rewrite (in_range_test _ Hin), Hcase.
  erewrite bind_Done by reflexivity.
  erewrite bind_Done by reflexivity.
  erewrite bind_Done by (apply (wait_drdy_ready k); [exact Hready|exact Hfuel]).
  erewrite bind_Done by reflexivity.
  erewrite bind_Done; cycle 1.
  { unfold polled. cbn [adc_lcdr set_adc_polls log_call].
    rewrite adc_lcdr_log_calls. cbn [adc_lcdr set_adc_enabled log_call].
    rewrite Hmap. reflexivity. }
  reflexivity.
Qed.

(** If the acquisition branch returns, it went through a poll that showed
    data ready, and the state is the one of a conversion. *)
Lemma analogRead_inv (fuel : nat) (myPin value : Z) (h h' : hw) :
  A0 <= myPin <= CANTX ->
  adc12_case (analogChannel (analogPin myPin)) = true ->
  analogRead fuel myPin h = Done value h' ->
  exists k, (k < fuel)%nat /\ ready_after k h /\
    mapResolution (u32 (adc_lcdr h)) (u32 ADC_RESOLUTION) (u32 _readResolution)
      = Some value /\
    h' = after_conversion (u32 (ADCChannelNumber (analogPin myPin))) k h.
Proof.
  intros Hin Hcase Hrun.
  unfold analogRead in Hrun. rewrite (in_range_test _ Hin), Hcase in Hrun.
  erewrite bind_Done in Hrun by reflexivity.
  erewrite bind_Done in Hrun by reflexivity.
  unfold bind at 1 in Hrun.
  destruct (wait_drdy fuel _) as [u hw1| |] eqn:Hwait; try discriminate.
  apply wait_drdy_done in Hwait as (k & Hk & Hready & ->).
  exists k. split; [exact Hk|]. split; [exact Hready|].
  erewrite bind_Done in Hrun by reflexivity.
  unfold bind at 1 in Hrun. unfold defined at 1 in Hrun.
  unfold polled in Hrun at 1. cbn [adc_lcdr set_adc_polls log_call] in Hrun.
  rewrite adc_lcdr_log_calls in Hrun. cbn [adc_lcdr set_adc_enabled log_call] in Hrun.
  destruct (mapResolution _ _ _) as [v|]; [|discriminate].
  erewrite bind_Done in Hrun by reflexivity.
  unfold ret in Hrun. injection Hrun as -> <-. split; reflexivity.
Qed.

Lemma log_calls_preserves {X : Type} (f : hw -> X) :
  (forall c h, f (log_call c h) = f h) ->
  forall cs h, f (log_calls cs h) = f h.
Proof.
  intros Hf. induction cs as [|c cs IH]; intros h; [reflexivity|].
  now rewrite log_calls_cons, IH.
Qed.

Lemma calls_after_conversion channel k h :
  calls (after_conversion channel k h)
  = calls h ++ [AdcEnableChannel channel; AdcStart]
            ++ replicate (S k) AdcGetStatus
            ++ [AdcGetLatestValue; AdcDisableChannel channel].
Proof.
  unfold after_conversion, polled.
  cbn [calls set_adc_enabled set_adc_polls log_call].
  rewrite calls_log_calls. cbn [calls set_adc_enabled log_call].
  now rewrite <- !app_assoc.
Qed.

Lemma adc_enabled_after_conversion channel k h :
  adc_enabled (after_conversion channel k h) = adc_enabled h ∖ {[channel]}.
Proof.
  unfold after_conversion, polled.
  cbn [adc_enabled set_adc_enabled set_adc_polls log_call].
  rewrite adc_enabled_log_calls. cbn [adc_enabled set_adc_enabled log_call].
  apply set_eq. intros x.
  rewrite !elem_of_difference, elem_of_union, elem_of_singleton. tauto.
Qed.

Lemma untouched_after_conversion {X : Type} (f : hw -> X) channel k h :
  (forall c h, f (log_call c h) = f h) ->
  (forall s h, f (set_adc_enabled s h) = f h) ->
  (forall n h, f (set_adc_polls n h) = f h) ->
  f (after_conversion channel k h) = f h.
Proof.
  intros Hlog Hen Hpolls. unfold after_conversion, polled. cbn zeta.
  rewrite Hen, !Hlog, Hpolls, (log_calls_preserves f Hlog), Hlog, Hen, Hlog.
  reflexivity.
Qed.

(** X6: the converse of the acquisition sequence.  Whenever analogRead
    returns on a pin of the acquisition branch, some poll showed data ready
    and none before it did, the calls made are enable, start, the polls up
    to that one, read, disable, and the value returned is the mapped value
    of the data register: the value is never read before data is ready. *)
Theorem analogRead_returns_only_after_ready
    (fuel : nat) (myPin value : Z) (h h' : hw) :
  A0 <= myPin <= CANTX ->
  adc12_case (analogChannel (analogPin myPin)) = true ->
  analogRead fuel myPin h = Done value h' ->
  exists k : nat,
    (k < fuel)%nat /\ ready_after k h /\
    mapResolution (u32 (adc_lcdr h)) (u32 ADC_RESOLUTION) (u32 _readResolution)
      = Some value /\
    trace_of (analogRead fuel myPin) h
    = [AdcEnableChannel (u32 (ADCChannelNumber (analogPin myPin))); AdcStart]
      ++ replicate (S k) AdcGetStatus
      ++ [AdcGetLatestValue;
          AdcDisableChannel (u32 (ADCChannelNumber (analogPin myPin)))].
Proof.
  intros Hin Hcase Hrun.
  destruct (analogRead_inv fuel myPin value h h' Hin Hcase Hrun)
    as (k & Hk & Hready & Hmap & ->).
  exists k. repeat (split; [assumption|]).
  unfold trace_of. rewrite Hrun, calls_after_conversion.
  apply drop_own_length.
Qed.

(** X7: on a board whose ADC_RESOLUTION is 12, a conversion that leaves a
    12-bit sample in the data register makes analogRead return the sample
    divided by 4, a 10-bit value. *)
Theorem analogRead_ten_bits (fuel k : nat) (myPin : Z) (h : hw) :
  ADC_RESOLUTION = 12 ->
  A0 <= myPin <= CANTX ->
  adc12_case (analogChannel (analogPin myPin)) = true ->
  ready_after k h ->
  (k < fuel)%nat ->
  0 <= adc_lcdr h < 4096 ->
  result (analogRead fuel myPin h) = Some (adc_lcdr h / 4) /\
  0 <= adc_lcdr h / 4 < 1024.
Proof.
  intros Hres Hin Hcase Hready Hfuel Hsample.
  rewrite (analogRead_run fuel k myPin (adc_lcdr h / 4) h Hin Hcase Hready Hfuel).
  - split; [reflexivity|]. split.
    + apply Z.div_pos; lia.
    + apply Z.div_lt_upper_bound; lia.
  - rewrite Hres. unfold _readResolution.
    change (u32 12) with 12. change (u32 10) with 10.
    unfold u32 at 1. rewrite Z.mod_small by lia.
    now rewrite mapResolution_down by lia.
Qed.

(** X8: on every path on which it returns, analogRead calls nothing but the
    ADC and the diagnostic sink, leaves the GPIO state and the analog
    reference as they were, and leaves no channel enabled that was not
    enabled before. *)
Theorem analogRead_touches_only_adc (fuel : nat) (myPin value : Z) (h h' : hw) :
  analogRead fuel myPin h = Done value h' ->
  Forall (fun c => is_adc_call c = true \/ is_debug_call c = true)
         (trace_of (analogRead fuel myPin) h) /\
  gpio_exported h' = gpio_exported h /\
  gpio_dir h' = gpio_dir h /\
  gpio_reads h' = gpio_reads h /\
  analog_reference h' = analog_reference h /\
  adc_enabled h' ⊆ adc_enabled h.
Proof.
  intros Hrun.
  destruct ((myPin <? A0) || (myPin >? CANTX)) eqn:Hrange.
  - unfold trace_of. unfold analogRead in *. rewrite Hrange in *.
    cbn in Hrun. injection Hrun as _ <-. cbn.
    rewrite drop_own_length. repeat split; auto.
  - assert (A0 <= myPin <= CANTX) as Hin.
    { apply orb_false_elim in Hrange as [Hlo Hhi].
      apply Z.ltb_ge in Hlo. rewrite Z.gtb_ltb in Hhi. apply Z.ltb_ge in Hhi. lia. }
    destruct (adc12_case (analogChannel (analogPin myPin))) eqn:Hcase.
    + destruct (analogRead_inv fuel myPin value h h' Hin Hcase Hrun)
        as (k & _ & _ & _ & ->).
      unfold trace_of. rewrite Hrun, calls_after_conversion, drop_own_length.
      split.
      { apply Forall_app. split; [repeat constructor|].
        apply Forall_app. split; [|repeat constructor].
        generalize (S k). intros n.
        induction n as [|n IH]; constructor; [now left|exact IH]. }
      repeat split; try (now apply untouched_after_conversion).
      rewrite adc_enabled_after_conversion. intros x.
      rewrite elem_of_difference. tauto.
    + unfold trace_of. unfold analogRead in *. rewrite Hrange, Hcase in *.
      injection Hrun as _ <-. cbn.
      rewrite <- (app_nil_r (calls h)) at 2. rewrite drop_own_length.
      repeat split; auto.
Qed.

(** ** Further facts: the shift protocol *)

Lemma notnot_level (x : Z) : is_level (notnot x).
Proof. unfold is_level, notnot. destruct (x =? 0); auto. Qed.

(** [!!(v & (1 << k))] is bit [k] of [v]. *)
Lemma notnot_land_bit (v k : Z) :
  0 <= k -> notnot (Z.land v (Z.shiftl 1 k)) = Z.b2z (Z.testbit v k).
Proof.
  intros Hk. rewrite Z.shiftl_1_l. unfold notnot.
  destruct (Z.testbit v k) eqn:Hbit; cbn [Z.b2z].
  - destruct (Z.eqb_spec (Z.land v (2 ^ k)) 0) as [Hzero|]; [|reflexivity].
    assert (Z.testbit (Z.land v (2 ^ k)) k = true) as Hset.
    { rewrite Z.land_spec, Hbit, Z.pow2_bits_true by lia. reflexivity. }
    rewrite Hzero, Z.bits_0 in Hset. discriminate.
  - assert (Z.land v (2 ^ k) = 0) as ->; [|reflexivity].
    apply Z.bits_inj'. intros n Hn.
    rewrite Z.land_spec, Z.bits_0, Z.pow2_bits_eqb by lia.
    destruct (Z.eqb_spec k n) as [<-|]; [now rewrite Hbit|apply andb_false_r].
Qed.

Lemma bit_index_nonneg (bitOrder i : Z) : 0 <= i <= 7 -> 0 <= bit_index bitOrder i.
Proof. intros Hi. unfold bit_index. destruct (_ =? _); lia. Qed.

(** X9: whatever the bit order and whatever the data pin answers (error codes
    included), shiftIn makes eight rounds of clock high, one sample of the
    data pin, clock low, logs no diagnostic, and returns a value in 0..255. *)
Theorem shiftIn_samples_eight_times (dataPin clockPin bitOrder : Z) (h : hw) :
  trace_of (shiftIn dataPin clockPin bitOrder) h
  = concat (replicate 8 [GpioSetValue clockPin HIGH;
                         GpioGetValue dataPin;
                         GpioSetValue clockPin LOW]) /\
  exists v h', shiftIn dataPin clockPin bitOrder h = Done v h' /\
               0 <= v < 256 /\
               gpio_reads h' = (8 + gpio_reads h)%nat.
Proof.
  split; [now rewrite trace_of_shiftIn|].
  rewrite shiftIn_run. eexists. eexists. split; [reflexivity|]. split; [|reflexivity].
  unfold assemble, upcoming_reads. cbn [seq map combine fold_left].
  unfold u8 at 1. apply Z.mod_pos_bound. reflexivity.
Qed.

(** X10: shiftOut makes eight rounds of one write to the data pin followed
    by clock high and clock low, so each level is on the data line before
    its clock pulse and through it; the levels written are 0 or 1; it reads
    no pin and changes nothing but the log. *)
Theorem shiftOut_structure (dataPin clockPin bitOrder val : Z) (h : hw) :
  shiftOut dataPin clockPin bitOrder val h
  = Done tt (log_calls
               (flat_map (fun b => [GpioSetValue dataPin b;
                                    GpioSetValue clockPin HIGH;
                                    GpioSetValue clockPin LOW])
                         (data_levels bitOrder val)) h) /\
  List.length (data_levels bitOrder val) = 8%nat /\
  Forall is_level (data_levels bitOrder val).
Proof.
  split; [|split].
  - rewrite shiftOut_run. reflexivity.
  - reflexivity.
  - unfold data_levels. cbn [map].
    repeat (apply List.Forall_cons; [apply notnot_level|]). apply List.Forall_nil.
Qed.

(** X11: the i-th level shiftOut puts on the data line is bit i of val for
    LSBFIRST and bit 7 - i of val for any other bit order. *)
Theorem shiftOut_sends_bits (dataPin clockPin bitOrder val : Z) (h : hw) :
  dataPin <> clockPin ->
  written dataPin (trace_of (shiftOut dataPin clockPin bitOrder val) h)
  = map (fun i => Z.b2z (Z.testbit val (if bitOrder =? LSBFIRST then i else 7 - i)))
        [0; 1; 2; 3; 4; 5; 6; 7].
Proof.
  intros Hne. rewrite trace_of_shiftOut, written_shiftOut_calls by exact Hne.
  unfold data_levels, bit_index. cbn [map].
  destruct (bitOrder =? LSBFIRST); rewrite !notnot_land_bit by lia; reflexivity.
Qed.

Lemma assemble_levels (bitOrder b0 b1 b2 b3 b4 b5 b6 b7 : Z) :
  Forall is_level [b0; b1; b2; b3; b4; b5; b6; b7] ->
  assemble bitOrder [b0; b1; b2; b3; b4; b5; b6; b7]
  = b0 * 2 ^ bit_index bitOrder 0 + b1 * 2 ^ bit_index bitOrder 1
    + b2 * 2 ^ bit_index bitOrder 2 + b3 * 2 ^ bit_index bitOrder 3
    + b4 * 2 ^ bit_index bitOrder 4 + b5 * 2 ^ bit_index bitOrder 5
    + b6 * 2 ^ bit_index bitOrder 6 + b7 * 2 ^ bit_index bitOrder 7 /\
  data_levels bitOrder (assemble bitOrder [b0; b1; b2; b3; b4; b5; b6; b7])
  = [b0; b1; b2; b3; b4; b5; b6; b7].
Proof.
  intros Hlevels.
  repeat match goal with
         | H : Forall _ (_ :: _) |- _ => apply Forall_cons in H as [? H]
         end.
  unfold assemble, data_levels, bit_index.
  destruct (bitOrder =? LSBFIRST);
    repeat match goal with
           | H : is_level _ |- _ => destruct H as [-> | ->]
           end;
    split; reflexivity.
Qed.

Lemma some_eq {A : Type} (a b : A) : Some a = Some b -> a = b.
Proof. intros Heq. now inversion Heq. Qed.

Lemma upcoming_reads_8 (h : hw) :
  exists b0 b1 b2 b3 b4 b5 b6 b7,
    upcoming_reads 8 h = [b0; b1; b2; b3; b4; b5; b6; b7].
Proof. unfold upcoming_reads. cbn [seq map]. repeat eexists. Qed.

(** X12: when the eight samples of the data pin are levels (0 or 1), shiftIn
    returns the sum of sample i times 2^i for LSBFIRST, and of sample i times
    2^(7-i) for any other bit order. *)
Theorem shiftIn_decodes_levels
    (dataPin clockPin bitOrder b0 b1 b2 b3 b4 b5 b6 b7 : Z) (h : hw) :
  upcoming_reads 8 h = [b0; b1; b2; b3; b4; b5; b6; b7] ->
  Forall is_level [b0; b1; b2; b3; b4; b5; b6; b7] ->
  result (shiftIn dataPin clockPin bitOrder h)
  = Some (if bitOrder =? LSBFIRST
          then b0 + b1 * 2 + b2 * 4 + b3 * 8 + b4 * 16 + b5 * 32 + b6 * 64 + b7 * 128
          else b0 * 128 + b1 * 64 + b2 * 32 + b3 * 16 + b4 * 8 + b5 * 4 + b6 * 2 + b7).
Proof.
  intros Hreads Hlevels. rewrite shiftIn_run, Hreads. cbn [result]. f_equal.
  destruct (assemble_levels bitOrder _ _ _ _ _ _ _ _ Hlevels) as [-> _].
  unfold bit_index. destruct (bitOrder =? LSBFIRST); cbn; lia.
Qed.

(** X13: the round trip in the other direction.  When the eight samples
    shiftIn takes are levels, shiftOut of the byte it returns, with the same
    bit order, writes these eight levels to the data pin in the same order. *)
Theorem shiftIn_then_shiftOut (dataPin clockPin bitOrder v : Z) (h_in h_out : hw) :
  dataPin <> clockPin ->
  Forall is_level (upcoming_reads 8 h_in) ->
  result (shiftIn dataPin clockPin bitOrder h_in) = Some v ->
  written dataPin (trace_of (shiftOut dataPin clockPin bitOrder v) h_out)
  = upcoming_reads 8 h_in.
Proof.
  intros Hne Hlevels Hin.
  rewrite shiftIn_run in Hin. cbn [result] in Hin. apply some_eq in Hin. subst v.
  rewrite trace_of_shiftOut, written_shiftOut_calls by exact Hne.
  destruct (upcoming_reads_8 h_in) as (b0 & b1 & b2 & b3 & b4 & b5 & b6 & b7 & Hreads).
  rewrite Hreads in Hlevels |- *.
  exact (proj2 (assemble_levels bitOrder _ _ _ _ _ _ _ _ Hlevels)).
Qed.

(** X14: with LSBFIRST shiftOut writes to the data pin the levels it writes
    with any other bit order, in the reverse order. *)
Theorem shiftOut_lsb_reverses_msb (dataPin clockPin bitOrder val : Z) (h1 h2 : hw) :
  dataPin <> clockPin ->
  bitOrder <> LSBFIRST ->
  written dataPin (trace_of (shiftOut dataPin clockPin LSBFIRST val) h1)
  = rev (written dataPin (trace_of (shiftOut dataPin clockPin bitOrder val) h2)).
Proof.
  intros Hne Hother.
  rewrite !trace_of_shiftOut, !written_shiftOut_calls by exact Hne.
  unfold data_levels, bit_index. rewrite Z.eqb_refl.
  destruct (Z.eqb_spec bitOrder LSBFIRST); [contradiction|].
  reflexivity.
Qed.

Lemma assemble_mirror (bitOrder val : Z) :
  bitOrder <> LSBFIRST -> 0 <= val < 256 ->
  assemble bitOrder (data_levels LSBFIRST val) = mirror8 val /\
  assemble LSBFIRST (data_levels bitOrder val) = mirror8 val.
Proof.
  intros Hother Hval. unfold assemble, data_levels, bit_index.
  rewrite Z.eqb_refl. destruct (Z.eqb_spec bitOrder LSBFIRST); [contradiction|].
  split; apply Z.eqb_eq; revert val Hval;
    apply (all_bytes (fun val => _ =? mirror8 val)); vm_compute; reflexivity.
Qed.

(** X15: when the two sides disagree on the bit order (one uses LSBFIRST,
    the other does not), the byte that comes out of the loop-back is the
    byte sent with its eight bits in the reverse order. *)
Theorem shift_loopback_mirrors
    (dataPin clockPin bitOrder val : Z) (h_out h_in : hw) :
  0 <= val < 256 ->
  dataPin <> clockPin ->
  bitOrder <> LSBFIRST ->
  (looped_back (written dataPin (trace_of (shiftOut dataPin clockPin LSBFIRST val) h_out)) h_in ->
   result (shiftIn dataPin clockPin bitOrder h_in) = Some (mirror8 val)) /\
  (looped_back (written dataPin (trace_of (shiftOut dataPin clockPin bitOrder val) h_out)) h_in ->
   result (shiftIn dataPin clockPin LSBFIRST h_in) = Some (mirror8 val)).
Proof.
  intros Hval Hne Hother.
  destruct (assemble_mirror bitOrder val Hother Hval) as [Hm1 Hm2].
  split; intros Hloop;
    rewrite trace_of_shiftOut, written_shiftOut_calls in Hloop by exact Hne;
    unfold looped_back in Hloop;
    change (List.length (data_levels _ val)) with 8%nat in Hloop;
    rewrite shiftIn_run, Hloop; cbn [result]; congruence.
Qed.

(** ** Further facts: time *)

Lemma ulong_range (z : Z) : 0 <= LONG_BIT -> 0 <= ulong z < 2 ^ LONG_BIT.
Proof. intros Hw. unfold ulong. apply Z.mod_pos_bound. now apply Z.pow_pos_nonneg. Qed.

Lemma micros_failure (h : hw) :
  clock_ret h = -1 ->
  micros h = Done (ulong CLOCK_TIME_ERROR)
               (log_call (DebugMsg "Clock Time error" []) (log_call ClockGettime h)).
Proof.
  intros Hfail. unfold micros, bind, clock_gettime. cbn [fst snd].
  rewrite Hfail. reflexivity.
Qed.

Lemma micros_success (h : hw) :
  clock_ret h <> -1 ->
  micros h = Done (ulong (tv_sec (clock_tm h) * 1000000 + tv_nsec (clock_tm h) ÷ 1000))
               (log_call ClockGettime h).
Proof.
  intros Hok. unfold micros, bind, clock_gettime. cbn [fst snd].
  destruct (Z.eqb_spec (clock_ret h) (-1)); [contradiction|reflexivity].
Qed.

(** X16: when clock_gettime fails, micros logs the diagnostic and returns
    CLOCK_TIME_ERROR (as an unsigned long), but milis returns that code
    divided by 1000: for a code that is not zero, a smaller number, so the
    caller of milis does not get the error code. *)
Theorem milis_masks_clock_error (h : hw) :
  clock_ret h = -1 ->
  0 <= LONG_BIT ->
  ulong CLOCK_TIME_ERROR <> 0 ->
  result (micros h) = Some (ulong CLOCK_TIME_ERROR) /\
  result (milis h) = Some (ulong CLOCK_TIME_ERROR ÷ 1000) /\
  ulong CLOCK_TIME_ERROR ÷ 1000 < ulong CLOCK_TIME_ERROR /\
  trace_of milis h = [ClockGettime; DebugMsg "Clock Time error" []].
Proof.
  intros Hfail Hw Hcode.
  pose proof (ulong_range CLOCK_TIME_ERROR Hw) as Hrange.
  unfold trace_of. rewrite milis_unfold, (micros_failure h Hfail). cbn [result].
  split; [reflexivity|]. split; [reflexivity|]. split.
  - rewrite Z.quot_div_nonneg by lia. apply Z.div_lt; lia.
  - cbn [calls log_call]. rewrite <- app_assoc. apply drop_own_length.
Qed.

(** X17: on every clock reading, failed or not, micros returns a number
    below 2^LONG_BIT and milis the number of whole thousands in it: milis
    times 1000 is at most micros and less than 1000 below it, and milis
    never exceeds (2^LONG_BIT - 1) / 1000. *)
Theorem milis_micros_bounds (h : hw) :
  0 <= LONG_BIT ->
  exists us ms,
    result (micros h) = Some us /\
    result (milis h) = Some ms /\
    0 <= us < 2 ^ LONG_BIT /\
    ms * 1000 <= us < ms * 1000 + 1000 /\
    0 <= ms <= (2 ^ LONG_BIT - 1) / 1000.
Proof.
  intros Hw.
  assert (exists us h', micros h = Done (ulong us) h') as (us & h' & Hrun).
  { destruct (Z.eq_dec (clock_ret h) (-1)) as [Hfail|Hok].
    - rewrite (micros_failure h Hfail). eauto.
    - rewrite (micros_success h Hok). eauto. }
  pose proof (ulong_range us Hw) as Hrange.
  rewrite milis_unfold, Hrun. cbn [result].
  exists (ulong us), (ulong us ÷ 1000).
  rewrite Z.quot_div_nonneg by lia.
  pose proof (Z.div_mod (ulong us) 1000 ltac:(lia)) as Hdm.
  pose proof (Z.mod_pos_bound (ulong us) 1000 ltac:(lia)) as Hrem.
  repeat split; try lia.
  apply Z.div_le_mono; lia.
Qed.

(** X18: micros depends on the clock reading only through its total number
    of microseconds modulo 2^LONG_BIT: it is the total itself while the
    total is below 2^LONG_BIT, and two readings whose totals differ by a
    multiple of 2^LONG_BIT give the same result (the count goes back to
    zero). *)
Theorem micros_wraps (h1 h2 : hw) (n : Z) :
  clock_ret h1 <> -1 ->
  clock_ret h2 <> -1 ->
  tv_sec (clock_tm h2) * 1000000 + tv_nsec (clock_tm h2) ÷ 1000
  = tv_sec (clock_tm h1) * 1000000 + tv_nsec (clock_tm h1) ÷ 1000 + n * 2 ^ LONG_BIT ->
  result (micros h2) = result (micros h1) /\
  (0 <= tv_sec (clock_tm h1) * 1000000 + tv_nsec (clock_tm h1) ÷ 1000 < 2 ^ LONG_BIT ->
   result (micros h1)
   = Some (tv_sec (clock_tm h1) * 1000000 + tv_nsec (clock_tm h1) ÷ 1000)).
Proof.
  intros Hok1 Hok2 Htotal.
  rewrite (micros_success h1 Hok1), (micros_success h2 Hok2). cbn [result].
  split.
  - f_equal. unfold ulong. rewrite Htotal.
    destruct (Z.lt_ge_cases LONG_BIT 0) as [Hneg|Hw].
    + rewrite Z.pow_neg_r by assumption. now rewrite Z.mul_0_r, Z.add_0_r.
    + apply Z.mod_add. apply Z.pow_nonzero; lia.
  - intros Hsmall. f_equal. unfold ulong. now apply Z.mod_small.
Qed.

(** ** Further facts: the digital pin controller *)

Lemma drop_own_length_2 {A} (l : list A) (a b : A) :
  drop (length l) ((l ++ [a]) ++ [b]) = [a; b].
Proof. rewrite <- app_assoc. apply drop_own_length. Qed.

(** X19: pinMode keeps no memory of the pins it exported: called twice with
    the same arguments it makes the calls of one call twice over (the export
    is repeated), and the GPIO state after two calls is the state after one.
    Whatever the mode, no pin other than the one given loses or gains its
    export or its direction. *)
Theorem pinMode_repeated (pin mode : Z) (h : hw) :
  exists h1 h2,
    pinMode pin mode h = Done tt h1 /\
    pinMode pin mode h1 = Done tt h2 /\
    trace_of (pinMode pin mode) h1 = trace_of (pinMode pin mode) h /\
    gpio_exported h2 = gpio_exported h1 /\
    gpio_dir h2 = gpio_dir h1 /\
    (forall q, q <> pin ->
       (q ∈ gpio_exported h1 <-> q ∈ gpio_exported h) /\
       gpio_dir h1 !! q = gpio_dir h !! q).
Proof.
  unfold trace_of, pinMode.
  destruct (negb (mode =? INPUT) && negb (mode =? OUTPUT)).
  - eexists. eexists. split; [reflexivity|]. split; [reflexivity|].
    cbn [debug calls log_call gpio_exported gpio_dir].
    rewrite !drop_own_length.
    repeat split; auto.
  - destruct (mode =? INPUT);
      (eexists; eexists; split; [reflexivity|]; split; [reflexivity|]);
      cbn [bind gpioExport gpioSetDirInput gpioSetDirOutput calls log_call
           set_gpio_exported set_gpio_dir gpio_exported gpio_dir];
      rewrite !drop_own_length_2;
      (split; [reflexivity|]);
      (split; [apply set_eq; intros x; rewrite !elem_of_union; tauto|]);
      (split; [apply insert_insert_eq|]);
      intros q Hq;
      (split; [rewrite elem_of_union, elem_of_singleton; tauto
              |now apply lookup_insert_ne]).
Qed.

End MoreFacts.

(** ** The further facts at concrete inputs *)

Lemma mapResolution_fits_witness :
  exists r, mapResolution 4095 12 10 = Some r /\ 0 <= r < 2 ^ 10 /\
            (12 <= 10 -> r = 4095 * 2 ^ (10 - 12)).
Proof. apply (mapResolution_fits 4095 12 10); cbn; lia. Defined.

Lemma mapResolution_up_down_witness :
  exists up, mapResolution 255 8 12 = Some up /\ mapResolution up 12 8 = Some 255.
Proof. apply (mapResolution_up_down 255 8 12); cbn; lia. Defined.

Lemma mapResolution_down_up_witness :
  exists down r, mapResolution 4095 12 10 = Some down /\
                 mapResolution down 10 12 = Some r /\
                 r = 4095 - 4095 mod 2 ^ (12 - 10) /\ r <= 4095.
Proof. apply (mapResolution_down_up 4095 12 10); cbn; lia. Defined.

Lemma mapResolution_down_compose_witness :
  exists mid, mapResolution 4095 12 10 = Some mid /\
              mapResolution mid 10 8 = mapResolution 4095 12 8.
Proof. apply (mapResolution_down_compose 4095 12 10 8); lia. Defined.

Lemma mapResolution_monotone_witness :
  exists r1 r2, mapResolution 100 12 10 = Some r1 /\
                mapResolution 4095 12 10 = Some r2 /\ r1 <= r2.
Proof. apply (mapResolution_monotone 100 4095 12 10); lia. Defined.

Lemma analogRead_returns_only_after_ready_witness :
  exists k : nat,
    (k < 5)%nat /\ ready_after (B := sample_board) k sample_hw /\
    mapResolution (u32 (adc_lcdr sample_hw)) (u32 12) (u32 10) = Some 1023 /\
    trace_of (analogRead (B := sample_board) 5 54) sample_hw
    = [AdcEnableChannel 7; AdcStart] ++ replicate (S k) AdcGetStatus
      ++ [AdcGetLatestValue; AdcDisableChannel 7].
Proof.
  apply (@analogRead_returns_only_after_ready sample_board 5 54 1023 sample_hw
           (after_conversion 7 2 sample_hw)).
  - cbn. lia.
  - reflexivity.
  - vm_compute. reflexivity.
Defined.

Lemma analogRead_ten_bits_witness :
  result (analogRead (B := sample_board) 5 54 sample_hw) = Some (4095 / 4) /\
  0 <= 4095 / 4 < 1024.
Proof.
  apply (@analogRead_ten_bits sample_board 5 2 54 sample_hw).
  - reflexivity.
  - cbn. lia.
  - reflexivity.
  - reflexivity.
  - lia.
  - cbn. lia.
Defined.

Lemma analogRead_touches_only_adc_witness :
  Forall (fun c => is_adc_call c = true \/ is_debug_call c = true)
         (trace_of (analogRead (B := sample_board) 5 54) sample_hw) /\
  adc_enabled (after_conversion 7 2 sample_hw) ⊆ adc_enabled sample_hw.
Proof.
  destruct (@analogRead_touches_only_adc sample_board 5 54 1023 sample_hw
              (after_conversion 7 2 sample_hw))
    as (Hcalls & _ & _ & _ & _ & Hen).
  - vm_compute. reflexivity.
  - split; [exact Hcalls|exact Hen].
Defined.

Lemma shiftOut_sends_bits_witness :
  written 2 (trace_of (shiftOut (B := sample_board) 2 3 1 165) sample_hw)
  = [1; 0; 1; 0; 0; 1; 0; 1].
Proof.
  apply (@shiftOut_sends_bits sample_board 2 3 1 165 sample_hw). discriminate.
Defined.

Lemma sample_levels : Forall is_level [1; 0; 1; 0; 0; 1; 0; 1].
Proof. repeat constructor; unfold is_level; lia. Qed.

Lemma shiftIn_decodes_levels_witness :
  result (shiftIn (B := sample_board) 2 3 0 sample_hw) = Some 165.
Proof.
  exact (@shiftIn_decodes_levels sample_board 2 3 0 1 0 1 0 0 1 0 1 sample_hw
           eq_refl sample_levels).
Defined.

Lemma shiftIn_then_shiftOut_witness :
  written 2 (trace_of (shiftOut (B := sample_board) 2 3 0 165) sample_hw)
  = [1; 0; 1; 0; 0; 1; 0; 1].
Proof.
  apply (@shiftIn_then_shiftOut sample_board 2 3 0 165 sample_hw sample_hw).
  - discriminate.
  - exact sample_levels.
  - vm_compute. reflexivity.
Defined.

Lemma shiftOut_lsb_reverses_msb_witness :
  written 2 (trace_of (shiftOut (B := sample_board) 2 3 0 5) sample_hw)
  = rev (written 2 (trace_of (shiftOut (B := sample_board) 2 3 1 5) sample_hw)).
Proof.
  apply (@shiftOut_lsb_reverses_msb sample_board 2 3 1 5 sample_hw sample_hw);
    discriminate.
Defined.

Lemma shift_loopback_mirrors_witness :
  result (shiftIn (B := sample_board) 2 3 1 (set_gpio_reads 5 sample_hw)) = Some 160.
Proof.
  apply (@shift_loopback_mirrors sample_board 2 3 1 5 sample_hw
           (set_gpio_reads 5 sample_hw)).
  - lia.
  - discriminate.
  - discriminate.
  - vm_compute. reflexivity.
Defined.

Lemma milis_masks_clock_error_witness :
  result (micros (B := sample_board) (set_clock (-1) (clock_tm sample_hw) sample_hw))
  = Some 4294967295 /\
  result (milis (B := sample_board) (set_clock (-1) (clock_tm sample_hw) sample_hw))
  = Some 4294967.
Proof.
  destruct (@milis_masks_clock_error sample_board
              (set_clock (-1) (clock_tm sample_hw) sample_hw))
    as (Hmicros & Hmilis & _).
  - reflexivity.
  - cbn. lia.
  - discriminate.
  - split; [exact Hmicros|exact Hmilis].
Defined.

Lemma milis_micros_bounds_witness :
  exists us ms,
    result (micros (B := sample_board) sample_hw) = Some us /\
    result (milis (B := sample_board) sample_hw) = Some ms /\
    0 <= us < 2 ^ 32 /\
    ms * 1000 <= us < ms * 1000 + 1000 /\
    0 <= ms <= (2 ^ 32 - 1) / 1000.
Proof. apply (@milis_micros_bounds sample_board sample_hw). cbn. lia. Defined.

Lemma micros_wraps_witness :
  result (micros (B := sample_board)
            (set_clock 0 {| tv_sec := 4294967296 + 5; tv_nsec := 7000 |} sample_hw))
  = result (micros (B := sample_board)
              (set_clock 0 {| tv_sec := 5; tv_nsec := 7000 |} sample_hw)).
Proof.
  destruct (@micros_wraps sample_board
              (set_clock 0 {| tv_sec := 5; tv_nsec := 7000 |} sample_hw)
              (set_clock 0 {| tv_sec := 4294967296 + 5; tv_nsec := 7000 |} sample_hw)
              1000000) as [Hsame _].
  - discriminate.
  - discriminate.
  - reflexivity.
  - exact Hsame.
Defined.
